(** * The binlog synchronisation core: master position and rows-event handlers

    A shallow embedding of two Go files of the repository:

    - [mybinlogsync]: the [masterInfo] type, the cursor into the upstream
      binary log ([loadMasterInfo], [Save], [Update], [Pos], [Close]);
    - [binlogsync]: the registry of [RowsEventHandler]s of a [Canal]
      ([RegisterRowsEventHandler]), the dispatch of one rows event
      ([processRowsEventHandler]) and the flush before a log rotation
      ([flushEventHandlers]).

    Go values are embedded as follows.  An [error] is an [option]: [None] is
    Go's [nil].  A function returning [(T, error)] returns a sum, [inl] for
    the value and [inr] for the non-nil error.  A method with a pointer
    receiver takes the receiver's state and returns the new one.  The
    reading of the clock is an argument.  Mutexes are left out: the
    embedding is of one call running alone, where every [Lock] succeeds at
    once and is released on return. *)

From stdpp Require Import base option list strings gmap fin_maps.
From Stdlib Require Import ZArith Lia Sorted.

Local Open Scope Z_scope.

(** ** Collaborators *)

(** The [errors] package the two files import.  It is a library outside the
    sources; what the code relies on is its contract: [Wrap] and [WithStack]
    of [nil] are [nil], and a wrapped error keeps the kind of its cause, which
    [Is] finds through any number of wrappers. *)
Module errors.

Inductive Kind : Type :=
| NoKind | Fatal | Interrupted | NotFound | NotValid | Temporary | Timeout.

#[global] Instance Kind_eq_dec : EqDecision Kind.
Proof. solve_decision. Defined.

Inductive error : Type :=
| fundamental (k : Kind) (msg : string)
| withStack (cause : error)
| withMessage (cause : error) (msg : string).

Fixpoint Cause (e : error) : error :=
  match e with
  | fundamental _ _ => e
  | withStack c => Cause c
  | withMessage c _ => Cause c
  end.

Fixpoint kindOf (e : error) : Kind :=
  match e with
  | fundamental k _ => k
  | withStack c => kindOf c
  | withMessage c _ => kindOf c
  end.

Definition Is (err : option error) (k : Kind) : bool :=
  match err with
  | None => false
  | Some e => bool_decide (kindOf e = k)
  end.

Definition WithStack (err : option error) : option error :=
  match err with
  | None => None
  | Some e => Some (withStack e)
  end.

Definition Wrap (err : option error) (msg : string) : option error :=
  match err with
  | None => None
  | Some e => Some (withStack (withMessage e msg))
  end.

End errors.

(** [time]: an instant is its number of nanoseconds on the clock that
    [time.Now] reads, the zero [Time] being [0]; a [Duration] is a signed
    64-bit number of nanoseconds, and [Sub] saturates at its bounds. *)
Module time.

Definition Second : Z := 1000000000.
Definition minDuration : Z := - 2 ^ 63.
Definition maxDuration : Z := 2 ^ 63 - 1.

Definition Sub (t u : Z) : Z :=
  if t - u <? minDuration then minDuration
  else if maxDuration <? t - u then maxDuration
  else t - u.

End time.

(** [mysql]: the client that runs a statement upstream.  A [Result] is seen
    through its two typed accessors, each of which may fail; [GetUint] yields
    a [uint64]. *)
Module mysql.

Record Result : Type := {
  GetString : nat → nat → string + errors.error;
  GetUint : nat → nat → Z + errors.error
}.

Record Executer : Type := {
  Execute : string → Result + errors.error
}.

Record Position : Type := { Name : string; Pos : Z }.

End mysql.

(** Conversion of an unsigned integer to [uint32]: the low 32 bits. *)
Definition uint32 (z : Z) : Z := z mod 2 ^ 32.

(** ** The master position *)
Module mybinlogsync.

Record masterInfo : Type := {
  Name : string;
  Position : Z;
  lastSaveTime : Z
}.

(** A write of the position to durable storage, as the body of [Save] that
    is commented out would make one ([WriteFileAtomic]).  The methods return
    the writes they made next to the new state. *)
Record FileWrite : Type := {
  writtenName : string;
  writtenPosition : Z
}.

Definition msgExecute : string :=
  "[mybinlogsync] Failed to execute SHOW MASTER STATUS".
Definition msgFirstColumn : string :=
  "[mybinlogsync] Failed to fetch first row with 1st column".
Definition msgSecondColumn : string :=
  "[mybinlogsync] Failed to fetch first row with 2nd column".

Definition loadMasterInfo (exec : mysql.Executer)
  : option masterInfo * option errors.error :=
  match mysql.Execute exec "SHOW MASTER STATUS" with
  | inr err => (None, errors.Wrap (Some err) msgExecute)
  | inl res =>
    match mysql.GetString res 0%nat 0%nat with
    | inr err => (None, errors.Wrap (Some err) msgFirstColumn)
    | inl name =>
      match mysql.GetUint res 0%nat 1%nat with
      | inr err => (None, errors.Wrap (Some err) msgSecondColumn)
      | inl pos =>
        (Some {| Name := name; Position := uint32 pos; lastSaveTime := 0 |},
         None)
      end
    end
  end.

(** [Save force], called when the clock reads [n]. *)
Definition Save (m : masterInfo) (force : bool) (n : Z)
  : masterInfo * list FileWrite * option errors.error :=
  if negb force && (time.Sub n (lastSaveTime m) <? time.Second)
  then (m, [], None)
  else ({| Name := Name m; Position := Position m; lastSaveTime := n |},
        [], None).

Definition Update (m : masterInfo) (name : string) (pos : Z)
  : masterInfo * list FileWrite :=
  ({| Name := name; Position := pos; lastSaveTime := lastSaveTime m |}, []).

Definition Pos (m : masterInfo) : mysql.Position :=
  {| mysql.Name := Name m; mysql.Pos := Position m |}.

Definition Close (m : masterInfo) (n : Z) : masterInfo * list FileWrite :=
  let '(m', writes, _) := Save m true n in (m', writes).

End mybinlogsync.

(** An upstream whose status row reads [name] and [pos]. *)
Definition statusOf (name : string) (pos : Z) : mysql.Executer :=
  {| mysql.Execute := λ _,
       inl {| mysql.GetString := λ _ _, inl name;
              mysql.GetUint := λ _ _, inl pos |} |}.

(** An upstream whose status query fails with [err]. *)
Definition failingWith (err : errors.error) : mysql.Executer :=
  {| mysql.Execute := λ _, inr err |}.

(** ** Collaborators of the canal *)

(** Modelled from the spec: [ddl.Table] is not among the sources; it is the
    table-schema descriptor of a row-change event, which handlers only read
    and of which the dispatch reads the name. *)
Module ddl.

Record Table : Type := { Schema : string; Name : string }.

End ddl.

(** [context]: the dispatch derives a cancellable context from the one it is
    given and hands it to every handler. *)
Module context.

Inductive Context : Type :=
| Background
| WithCancel (parent : Context).

End context.

(** [errgroup]: a [Group] records the functions started with [Go], in the
    order they were started.  [Wait] blocks until all of them have returned
    and returns the first non-nil error, first in the order in which the
    functions return: that order is the scheduler's, so [Wait] is a relation
    over all the orders, and [WaitInOrder] is the run in which the functions
    return in the order they were started. *)
Module errgroup.

Record Group : Type := {
  goroutines : list (unit → option errors.error)
}.

Definition WithContext (ctx : context.Context) : Group * context.Context :=
  ({| goroutines := [] |}, context.WithCancel ctx).

Definition Go (g : Group) (f : unit → option errors.error) : Group :=
  {| goroutines := goroutines g ++ [f] |}.

Fixpoint firstErr (returned : list (option errors.error))
  : option errors.error :=
  match returned with
  | [] => None
  | Some e :: _ => Some e
  | None :: rest => firstErr rest
  end.

Definition returns (g : Group) : list (option errors.error) :=
  (λ f, f tt) <$> goroutines g.

Definition Wait (g : Group) (r : option errors.error) : Prop :=
  ∃ returned, returned ≡ₚ returns g ∧ r = firstErr returned.

Definition WaitInOrder (g : Group) : option errors.error :=
  firstErr (returns g).

End errgroup.

(** ** The canal's rows-event handlers *)
Module binlogsync.

(** A column value of a row, Go's [interface{}]. *)
Inductive Value : Type :=
| VNil
| VInt (z : Z)
| VString (s : string).

(** The [RowsEventHandler] interface.  A handler is taken by what its
    methods return when they are called in the run under consideration,
    whatever they did with the context they were handed, which the group
    cancels on the first error: the properties below are about every result
    of a run, not about which runs a handler allows. *)
Record RowsEventHandler : Type := {
  Do : context.Context → string → ddl.Table → list (list Value)
       → option errors.error;
  Complete : context.Context → option errors.error;
  String : string
}.

(** The canal, reduced to the handler map: [None] is the nil map the zero
    [Canal] starts with.  The lock [rsMu], the logger and the DSN do not
    bear on what the three methods compute. *)
Record Canal : Type := {
  rsHandlers : option (gmap string (list RowsEventHandler))
}.

(** [hs, ok := m[k]]: reading a nil map finds nothing. *)
Definition index (m : option (gmap string (list RowsEventHandler)))
  (k : string) : option (list RowsEventHandler) :=
  match m with
  | None => None
  | Some m => m !! k
  end.

(** [m[k]]: a key that is absent reads as the nil slice. *)
Definition at_key (m : option (gmap string (list RowsEventHandler)))
  (k : string) : list RowsEventHandler :=
  default [] (index m k).

Definition RegisterRowsEventHandler (c : Canal) (tableName : string)
  (h : list RowsEventHandler) : Canal :=
  let m := match rsHandlers c with
           | None => ∅
           | Some m => m
           end in
  let hs := default [] (m !! tableName) in
  {| rsHandlers := Some (<[tableName := hs ++ h]> m) |}.

(** The closure [errGoFn(h)] of [processRowsEventHandler]; the line it logs
    is not part of what it returns. *)
Definition errGoFn (ctx : context.Context) (action : string)
  (table : ddl.Table) (rows : list (list Value)) (h : RowsEventHandler)
  : unit → option errors.error :=
  λ _, match Do h ctx action table rows with
       | Some err =>
         let isInterr := errors.Is (Some err) errors.Interrupted in
         if isInterr then errors.WithStack (Some err) else None
       | None => None
       end.

(** [processRowsEventHandler] up to [erg.Wait]: the group with every
    function the two loops start. *)
Definition processRowsEventHandler_started (c : Canal) (ctx : context.Context)
  (action : string) (table : ddl.Table) (rows : list (list Value))
  : errgroup.Group :=
  let '(erg, ctx) := errgroup.WithContext ctx in
  let erg :=
    match index (rsHandlers c) (ddl.Name table) with
    | Some hs =>
      if bool_decide (ddl.Name table ≠ "")
      then foldl (λ erg h, errgroup.Go erg (errGoFn ctx action table rows h))
                 erg hs
      else erg
    | None => erg
    end in
  foldl (λ erg h, errgroup.Go erg (errGoFn ctx action table rows h))
        erg (at_key (rsHandlers c) "").

Definition processRowsEventHandler (c : Canal) (ctx : context.Context)
  (action : string) (table : ddl.Table) (rows : list (list Value))
  (r : option errors.error) : Prop :=
  ∃ waited,
    errgroup.Wait (processRowsEventHandler_started c ctx action table rows)
                  waited
    ∧ r = errors.WithStack waited.

Definition processRowsEventHandler_in_order (c : Canal)
  (ctx : context.Context) (action : string) (table : ddl.Table)
  (rows : list (list Value)) : option errors.error :=
  errors.WithStack
    (errgroup.WaitInOrder
       (processRowsEventHandler_started c ctx action table rows)).

(** The handlers the two loops of [processRowsEventHandler] range over, in
    the order they do. *)
Definition matched (c : Canal) (tableName : string) : list RowsEventHandler :=
  match index (rsHandlers c) tableName with
  | Some hs => if bool_decide (tableName ≠ "") then hs else []
  | None => []
  end ++ at_key (rsHandlers c) "".

(** The function [flushEventHandlers] starts for handler [h] of the list
    under [tblName]; the table name only goes to the log. *)
Definition completeFn (ctx : context.Context) (tblName : string)
  (h : RowsEventHandler) : unit → option errors.error :=
  λ _, match Complete h ctx with
       | Some err =>
         let isInterr := errors.Is (Some err) errors.Interrupted in
         if isInterr then errors.WithStack (Some err) else None
       | None => None
       end.

(** [flushEventHandlers] up to [erg.Wait], ranging over the map in the order
    [ranged]: Go leaves the order of a [range] over a map open. *)
Definition flushEventHandlers_started (ctx : context.Context)
  (ranged : list (string * list RowsEventHandler)) : errgroup.Group :=
  let '(erg, ctx) := errgroup.WithContext ctx in
  foldl (λ erg '(tblName, hs),
           foldl (λ erg h, errgroup.Go erg (completeFn ctx tblName h)) erg hs)
        erg ranged.

Definition msgFlush : string :=
  "[binlogsync] flushEventHandlers errgroup Wait".

(** The entries of the handler map, in the order of [map_to_list]. *)
Definition entries (c : Canal) : list (string * list RowsEventHandler) :=
  match rsHandlers c with
  | None => []
  | Some m => map_to_list m
  end.

Definition flushEventHandlers (c : Canal) (ctx : context.Context)
  (r : option errors.error) : Prop :=
  ∃ ranged waited,
    ranged ≡ₚ entries c
    ∧ errgroup.Wait (flushEventHandlers_started ctx ranged) waited
    ∧ r = errors.Wrap waited msgFlush.

Definition flushEventHandlers_in_order (c : Canal) (ctx : context.Context)
  : option errors.error :=
  errors.Wrap
    (errgroup.WaitInOrder (flushEventHandlers_started ctx (entries c)))
    msgFlush.

(** The registrations, one [(tableFilter, handler)] pair for each element of
    each list, of the entries [ranged]. *)
Definition registrations (ranged : list (string * list RowsEventHandler))
  : list (string * RowsEventHandler) :=
  ranged ≫= (λ '(tblName, hs), (λ h, (tblName, h)) <$> hs).

(** [HandlersFor] as the specification words it: the handlers registered
    for the exact table name, then those registered for all tables. *)
Definition HandlersFor (c : Canal) (tableName : string)
  : list RowsEventHandler :=
  at_key (rsHandlers c) tableName ++ at_key (rsHandlers c) "".

End binlogsync.

(** A handler whose [Do] and [Complete] return the given errors whatever
    they are called with, and the canal with the given registrations made
    one after the other from the zero [Canal]. *)
Definition handlerReturning (name : string)
  (doErr completeErr : option errors.error) : binlogsync.RowsEventHandler :=
  {| binlogsync.Do := λ _ _ _ _, doErr;
     binlogsync.Complete := λ _, completeErr;
     binlogsync.String := name |}.

Definition canalOf (regs : list (string * list binlogsync.RowsEventHandler))
  : binlogsync.Canal :=
  foldl (λ c '(tableName, h), binlogsync.RegisterRowsEventHandler c tableName h)
        {| binlogsync.rsHandlers := None |} regs.

Definition errStop : errors.error :=
  errors.fundamental errors.Interrupted "stop the syncer".
Definition errBroken : errors.error :=
  errors.fundamental errors.NotValid "sink is broken".

Definition ordersTable : ddl.Table :=
  {| ddl.Schema := "shop"; ddl.Name := "orders" |}.
Definition customersTable : ddl.Table :=
  {| ddl.Schema := "shop"; ddl.Name := "customers" |}.

(** ** Runs of the master position *)

(** A call of one of the methods of a [masterInfo], with the reading of the
    clock where the method takes one, and the state a sequence of calls made
    one after the other leaves. *)
Inductive call : Type :=
| callSave (force : bool) (n : Z)
| callUpdate (name : string) (pos : Z)
| callClose (n : Z).

Definition step (m : mybinlogsync.masterInfo) (c : call)
  : mybinlogsync.masterInfo :=
  match c with
  | callSave force n => (mybinlogsync.Save m force n).1.1
  | callUpdate name pos => (mybinlogsync.Update m name pos).1
  | callClose n => (mybinlogsync.Close m n).1
  end.

Definition run (m : mybinlogsync.masterInfo) (calls : list call)
  : mybinlogsync.masterInfo :=
  foldl step m calls.

(** The arguments of the last [Update] among the calls, if there is one. *)
Definition lastUpdate (calls : list call) : option (string * Z) :=
  foldl (λ last c, match c with
                   | callUpdate name pos => Some (name, pos)
                   | _ => last
                   end) None calls.

Definition isUpdate (c : call) : bool :=
  match c with
  | callUpdate _ _ => true
  | _ => false
  end.

(** The readings, among [ns], at which an unforced [Save] called at each of
    them in turn changes the time of the last save. *)
Fixpoint savedAt (m : mybinlogsync.masterInfo) (ns : list Z) : list Z :=
  match ns with
  | [] => []
  | n :: ns =>
    let m' := (mybinlogsync.Save m false n).1.1 in
    if bool_decide (mybinlogsync.lastSaveTime m' = mybinlogsync.lastSaveTime m)
    then savedAt m' ns
    else n :: savedAt m' ns
  end.

(** ** The UPDATE statement builder *)

(** The file of the rows-event handlers holds, before them, the builder of
    UPDATE statements of package [dml].  Its methods that stand on their own
    are embedded here.  The types [Condition] and [BuilderConditional], the
    constructor [Column] and the method [prepare] are declared in files that
    are not among the sources: they are parameters.  An [Update] is reduced
    to the fields these methods read or write; [cachedSQL] is a field of the
    embedded [BuilderBase]. *)
Module dml.

(** The two kinds of the [errors] package of which this file makes errors,
    with [Newf], and the wrapper [WithStack] it puts around them. *)
Inductive Kind : Type := Empty | Mismatch.

Inductive error : Type :=
| Newf (k : Kind) (format : string)
| withStack (cause : error).

Fixpoint kindOf (e : error) : Kind :=
  match e with
  | Newf k _ => k
  | withStack c => kindOf c
  end.

Definition WithStack (err : option error) : option error :=
  match err with
  | None => None
  | Some e => Some (withStack e)
  end.

Section Update.

Context {Condition BuilderConditional Stmt : Type}.
Variable Column : string → Condition.
Variable zeroBuilderConditional : BuilderConditional.

Record Update : Type := {
  cachedSQL : list Byte.byte;
  conditional : BuilderConditional;
  SetClausAliases : list string;
  SetClauses : list Condition
}.

Variable prepare : Update → option Stmt * option error.

Definition Set_ (b : Update) (c : list Condition) : Update :=
  {| cachedSQL := cachedSQL b;
     conditional := conditional b;
     SetClausAliases := SetClausAliases b;
     SetClauses := SetClauses b ++ c |}.

Definition AddColumns (b : Update) (columnNames : list string) : Update :=
  foldl (λ b col,
           {| cachedSQL := cachedSQL b;
              conditional := conditional b;
              SetClausAliases := SetClausAliases b;
              SetClauses := SetClauses b ++ [Column col] |})
        b columnNames.

Definition writeBuildCache (b : Update) (sql : list Byte.byte) : Update :=
  {| cachedSQL := sql;
     conditional := zeroBuilderConditional;
     SetClausAliases := [];
     SetClauses := [] |}.

Definition readBuildCache (b : Update) : list Byte.byte := cachedSQL b.

Definition validate (b : Update) : option error :=
  if (1 <? length (cachedSQL b))%nat then None
  else if (length (SetClauses b) =? 0)%nat
  then Some (Newf Empty "[dml] Update: Columns are empty")
  else if (0 <? length (SetClausAliases b))%nat
          && negb (length (SetClausAliases b) =? length (SetClauses b))%nat
  then Some (Newf Mismatch
    "[dml] Update: ColumnAliases slice and Columns slice must have the same length")
  else None.

Definition Prepare (b : Update) : option Stmt * option error :=
  match validate b with
  | Some err => (None, WithStack (Some err))
  | None => prepare b
  end.

End Update.

End dml.

(** * Properties *)

(** ** Errors and the error group *)

Lemma Is_WithStack (err : option errors.error) (k : errors.Kind) :
  errors.Is (errors.WithStack err) k = errors.Is err k.
Proof. by destruct err. Qed.

Lemma Is_Wrap (err : option errors.error) (msg : string) (k : errors.Kind) :
  errors.Is (errors.Wrap err msg) k = errors.Is err k.
Proof. by destruct err. Qed.

Lemma WithStack_None (err : option errors.error) :
  errors.WithStack err = None ↔ err = None.
Proof. by destruct err. Qed.

Lemma Wrap_None (err : option errors.error) (msg : string) :
  errors.Wrap err msg = None ↔ err = None.
Proof. by destruct err. Qed.

Lemma Cause_Wrap (e : errors.error) (msg : string) :
  errors.Cause <$> errors.Wrap (Some e) msg = Some (errors.Cause e).
Proof. done. Qed.

Lemma firstErr_None (returned : list (option errors.error)) :
  errgroup.firstErr returned = None ↔ Forall (λ r, r = None) returned.
Proof.
  induction returned as [|[e|] rest IH]; simpl.
  - split; [constructor | done].
  - split; [done | by inversion 1].
  - rewrite IH. split; [by constructor | by inversion 1].
Qed.

Lemma firstErr_Some (returned : list (option errors.error)) (e : errors.error) :
  errgroup.firstErr returned = Some e → Some e ∈ returned.
Proof.
  induction returned as [|[e'|] rest IH]; simpl; intros H.
  - done.
  - injection H as ->. left.
  - right. by apply IH.
Qed.

Lemma Wait_in_order (g : errgroup.Group) :
  errgroup.Wait g (errgroup.WaitInOrder g).
Proof. by exists (errgroup.returns g). Qed.

Lemma Wait_None (g : errgroup.Group) (r : option errors.error) :
  errgroup.Wait g r →
  r = None ↔ Forall (λ f, f tt = None) (errgroup.goroutines g).
Proof.
  intros (returned & Hperm & ->). rewrite firstErr_None, Hperm.
  unfold errgroup.returns. by rewrite Forall_fmap.
Qed.

Lemma Wait_Some (g : errgroup.Group) (e : errors.error) :
  errgroup.Wait g (Some e) →
  ∃ f, f ∈ errgroup.goroutines g ∧ f tt = Some e.
Proof.
  intros (returned & Hperm & Hfirst). symmetry in Hfirst.
  apply firstErr_Some in Hfirst. rewrite Hperm in Hfirst.
  apply list_elem_of_fmap in Hfirst as (f & ? & ?). eauto.
Qed.

Lemma goroutines_foldl_Go {A} (run : A → unit → option errors.error)
  (xs : list A) (g : errgroup.Group) :
  errgroup.goroutines (foldl (λ g x, errgroup.Go g (run x)) g xs)
  = errgroup.goroutines g ++ (run <$> xs).
Proof.
  revert g. induction xs as [|x xs IH]; intros g; simpl.
  - by rewrite app_nil_r.
  - rewrite IH. simpl. by rewrite <- app_assoc.
Qed.

(** ** The master position *)

Lemma Sub_lt_Second (n t : Z) :
  (time.Sub n t <? time.Second) = (n - t <? time.Second).
Proof.
  unfold time.Sub, time.Second, time.minDuration, time.maxDuration.
  repeat case_match; lia.
Qed.

(** The debounce of [Save]: not forced and less than a second after the last
    save, nothing changes. *)
Lemma Save_debounced (m : mybinlogsync.masterInfo) (n : Z) :
  n - mybinlogsync.lastSaveTime m < time.Second →
  mybinlogsync.Save m false n = (m, [], None).
Proof.
  intros H. unfold mybinlogsync.Save. rewrite Sub_lt_Second. simpl.
  by rewrite (proj2 (Z.ltb_lt _ _) H).
Qed.

(** Otherwise [Save] records the time of the call, and that is all it does. *)
Lemma Save_otherwise (m : mybinlogsync.masterInfo) (force : bool) (n : Z) :
  force = true ∨ time.Second ≤ n - mybinlogsync.lastSaveTime m →
  mybinlogsync.Save m force n
  = ({| mybinlogsync.Name := mybinlogsync.Name m;
        mybinlogsync.Position := mybinlogsync.Position m;
        mybinlogsync.lastSaveTime := n |}, [], None).
Proof.
  intros H. unfold mybinlogsync.Save. rewrite Sub_lt_Second.
  destruct H as [-> | H]; [done |].
  rewrite (proj2 (Z.ltb_ge _ _) H). by rewrite andb_false_r.
Qed.

Lemma Save_writes_nothing (m : mybinlogsync.masterInfo) (force : bool) (n : Z) :
  (mybinlogsync.Save m force n).1.2 = [].
Proof. unfold mybinlogsync.Save. by case_match. Qed.

(** C2, at a forced save.  [Save(true)] on the position
    [mysql-bin.000005:4820], two seconds after the last save, records the
    time of the call and returns nil, and the list of writes to durable
    storage it made is empty: the body that would write the position is
    commented out in the source, under the heading "todo: implement
    saving". *)
Theorem Save_forced_writes_nothing :
  mybinlogsync.Save
    {| mybinlogsync.Name := "mysql-bin.000005";
       mybinlogsync.Position := 4820;
       mybinlogsync.lastSaveTime := 63650000000000000000 |}
    true 63650000002000000000
  = ({| mybinlogsync.Name := "mysql-bin.000005";
        mybinlogsync.Position := 4820;
        mybinlogsync.lastSaveTime := 63650000002000000000 |}, [], None).
Proof. reflexivity. Qed.

(** The debounce scenarios of the specification: a second unforced save
    900ms after the first changes nothing, one 1100ms after records its
    time; the first save after the zero time is never debounced. *)
Example Save_900ms_later :
  let m := {| mybinlogsync.Name := "mysql-bin.000005";
              mybinlogsync.Position := 4820;
              mybinlogsync.lastSaveTime := 63650000000000000000 |} in
  mybinlogsync.Save m false 63650000000900000000 = (m, [], None).
Proof. apply Save_debounced. simpl. unfold time.Second. lia. Qed.

Example Save_1100ms_later :
  mybinlogsync.lastSaveTime
    (mybinlogsync.Save
       {| mybinlogsync.Name := "mysql-bin.000005";
          mybinlogsync.Position := 4820;
          mybinlogsync.lastSaveTime := 63650000000000000000 |}
       false 63650000001100000000).1.1
  = 63650000001100000000.
Proof. reflexivity. Qed.

Example Save_first_time :
  mybinlogsync.lastSaveTime
    (mybinlogsync.Save
       {| mybinlogsync.Name := "mysql-bin.000005";
          mybinlogsync.Position := 4820;
          mybinlogsync.lastSaveTime := 0 |}
       false 63650000000000000000).1.1
  = 63650000000000000000.
Proof. reflexivity. Qed.

(** C4 as stated fails, in both halves.  The failures of [loadMasterInfo]
    are of no one kind: the error of a failed status query comes back with
    the kind it had, so a query that timed out and a query that found
    nothing give failures of two different kinds.  And the offset of a
    loaded position is not always the second column: with the [uint64]
    column at [2^32] the load succeeds with the offset [0]. *)
Lemma loadMasterInfo_not_one_kind_nor_offset :
  (¬ ∃ k, ∀ exec err,
        mysql.Execute exec "SHOW MASTER STATUS" = inr err →
        errors.Is (mybinlogsync.loadMasterInfo exec).2 k = true)
  ∧ ¬ (∀ exec res name pos,
         mysql.Execute exec "SHOW MASTER STATUS" = inl res →
         mysql.GetString res 0%nat 0%nat = inl name →
         mysql.GetUint res 0%nat 1%nat = inl pos →
         0 ≤ pos < 2 ^ 64 →
         ∃ m, mybinlogsync.loadMasterInfo exec = (Some m, None)
              ∧ mybinlogsync.Name m = name
              ∧ mybinlogsync.Position m = pos).
Proof.
  split.
  - intros (k & H).
    pose proof (H (failingWith (errors.fundamental errors.Timeout "timed out"))
                  _ eq_refl) as H1.
    pose proof (H (failingWith (errors.fundamental errors.NotFound "no row"))
                  _ eq_refl) as H2.
    simpl in H1, H2. apply bool_decide_eq_true in H1, H2. congruence.
  - intros H.
    destruct (H (statusOf "mysql-bin.000005" (2 ^ 32)) _ _ _
                eq_refl eq_refl eq_refl) as (m & Hload & _ & Hpos); [lia |].
    injection Hload as <-. discriminate Hpos.
Qed.

(** C4, amended.  [loadMasterInfo] fails, with no position, when the status
    query fails or the first or the second column of the first row cannot be
    read.  The error it returns is the error of the step that failed, wrapped
    with the message of that step, and is of the kinds that error is of: the
    code gives it no kind of its own.  When all three steps succeed it
    returns no error and the position whose name is the first column, whose
    offset is the second column reduced modulo [2^32] and whose time of the
    last save is the zero time. *)
Theorem loadMasterInfo_fails_or_loads (exec : mysql.Executer) :
  (∀ err, mysql.Execute exec "SHOW MASTER STATUS" = inr err →
     mybinlogsync.loadMasterInfo exec
     = (None, errors.Wrap (Some err) mybinlogsync.msgExecute)
     ∧ ∀ k, errors.Is (mybinlogsync.loadMasterInfo exec).2 k
            = errors.Is (Some err) k)
  ∧ (∀ res err, mysql.Execute exec "SHOW MASTER STATUS" = inl res →
       mysql.GetString res 0%nat 0%nat = inr err →
       mybinlogsync.loadMasterInfo exec
       = (None, errors.Wrap (Some err) mybinlogsync.msgFirstColumn)
       ∧ ∀ k, errors.Is (mybinlogsync.loadMasterInfo exec).2 k
              = errors.Is (Some err) k)
  ∧ (∀ res name err, mysql.Execute exec "SHOW MASTER STATUS" = inl res →
       mysql.GetString res 0%nat 0%nat = inl name →
       mysql.GetUint res 0%nat 1%nat = inr err →
       mybinlogsync.loadMasterInfo exec
       = (None, errors.Wrap (Some err) mybinlogsync.msgSecondColumn)
       ∧ ∀ k, errors.Is (mybinlogsync.loadMasterInfo exec).2 k
              = errors.Is (Some err) k)
  ∧ (∀ res name pos, mysql.Execute exec "SHOW MASTER STATUS" = inl res →
       mysql.GetString res 0%nat 0%nat = inl name →
       mysql.GetUint res 0%nat 1%nat = inl pos →
       mybinlogsync.loadMasterInfo exec
       = (Some {| mybinlogsync.Name := name;
                  mybinlogsync.Position := pos mod 2 ^ 32;
                  mybinlogsync.lastSaveTime := 0 |}, None)).
Proof.
  unfold mybinlogsync.loadMasterInfo. split_and!.
  - intros err ->. split; [done |]. intros k. cbn [snd]. apply Is_Wrap.
  - intros res err -> ->. split; [done |]. intros k. cbn [snd]. apply Is_Wrap.
  - intros res name err -> -> ->. split; [done |]. intros k. cbn [snd].
    apply Is_Wrap.
  - intros res name pos -> -> ->. done.
Qed.

Lemma loadMasterInfo_fails_or_loads_witness :
  (mybinlogsync.loadMasterInfo (statusOf "mysql-bin.000005" 4820)
   = (Some {| mybinlogsync.Name := "mysql-bin.000005";
              mybinlogsync.Position := 4820 mod 2 ^ 32;
              mybinlogsync.lastSaveTime := 0 |}, None))
  ∧ (mybinlogsync.loadMasterInfo
       (failingWith (errors.fundamental errors.Timeout "timed out"))
     = (None,
        errors.Wrap (Some (errors.fundamental errors.Timeout "timed out"))
                    mybinlogsync.msgExecute)
     ∧ ∀ k, errors.Is (mybinlogsync.loadMasterInfo
                         (failingWith
                            (errors.fundamental errors.Timeout "timed out"))).2
                      k
            = errors.Is (Some (errors.fundamental errors.Timeout "timed out"))
                        k).
Proof.
  split.
  - apply (proj2 (proj2 (proj2 (loadMasterInfo_fails_or_loads
                                  (statusOf "mysql-bin.000005" 4820))))
             {| mysql.GetString := λ _ _, inl "mysql-bin.000005";
                mysql.GetUint := λ _ _, inl 4820 |}
             "mysql-bin.000005" 4820);
      reflexivity.
  - apply (proj1 (loadMasterInfo_fails_or_loads
                    (failingWith
                       (errors.fundamental errors.Timeout "timed out")))).
    reflexivity.
Defined.

(** C7.  [Update] has no error to return; it sets the name and the offset
    to the values given, keeps the time of the last save, and makes no write
    to durable storage. *)
Theorem Update_overwrites_position (m : mybinlogsync.masterInfo)
  (name : string) (pos : Z) :
  ∃ m', mybinlogsync.Update m name pos = (m', [])
        ∧ mybinlogsync.Name m' = name
        ∧ mybinlogsync.Position m' = pos
        ∧ mybinlogsync.lastSaveTime m' = mybinlogsync.lastSaveTime m.
Proof. eexists. by split_and!. Qed.

(** C8.  [Close] is [Save] with [force] set: whatever the time of the last
    save, the early return of the debounce is not taken, and the time of the
    call is recorded. *)
Theorem Close_is_forced_Save (m : mybinlogsync.masterInfo) (n : Z) :
  mybinlogsync.Close m n
  = ((mybinlogsync.Save m true n).1.1, (mybinlogsync.Save m true n).1.2)
  ∧ mybinlogsync.lastSaveTime (mybinlogsync.Close m n).1 = n
  ∧ mybinlogsync.Pos (mybinlogsync.Close m n).1 = mybinlogsync.Pos m.
Proof. by rewrite (surjective_pairing (mybinlogsync.Close m n)). Qed.

(** C10.  When the status row is read, with any [uint64] in its second
    column, [loadMasterInfo] succeeds and stores that offset reduced modulo
    [2^32]: an offset of [2^32] or more is not rejected, and the stored
    offset differs from it. *)
Theorem loadMasterInfo_truncates_offset (exec : mysql.Executer)
  (res : mysql.Result) (name : string) (pos : Z) :
  mysql.Execute exec "SHOW MASTER STATUS" = inl res →
  mysql.GetString res 0%nat 0%nat = inl name →
  mysql.GetUint res 0%nat 1%nat = inl pos →
  0 ≤ pos < 2 ^ 64 →
  ∃ m, mybinlogsync.loadMasterInfo exec = (Some m, None)
       ∧ mybinlogsync.Position m = pos mod 2 ^ 32
       ∧ 0 ≤ mybinlogsync.Position m < 2 ^ 32
       ∧ (2 ^ 32 ≤ pos → mybinlogsync.Position m ≠ pos).
Proof.
  intros Hexec Hname Hpos Hrange. unfold mybinlogsync.loadMasterInfo.
  rewrite Hexec, Hname, Hpos. eexists. split; [done |]. simpl.
  unfold uint32. pose proof (Z.mod_pos_bound pos (2 ^ 32) ltac:(lia)).
  split_and!; [done | lia | lia | lia].
Qed.

Lemma loadMasterInfo_truncates_offset_witness :
  ∃ m, mybinlogsync.loadMasterInfo
         (statusOf "mysql-bin.000005" (2 ^ 32 + 4820)) = (Some m, None)
       ∧ mybinlogsync.Position m = (2 ^ 32 + 4820) mod 2 ^ 32
       ∧ 0 ≤ mybinlogsync.Position m < 2 ^ 32
       ∧ (2 ^ 32 ≤ 2 ^ 32 + 4820 → mybinlogsync.Position m ≠ 2 ^ 32 + 4820).
Proof.
  apply (loadMasterInfo_truncates_offset
           (statusOf "mysql-bin.000005" (2 ^ 32 + 4820))
           {| mysql.GetString := λ _ _, inl "mysql-bin.000005";
              mysql.GetUint := λ _ _, inl (2 ^ 32 + 4820) |}
           "mysql-bin.000005" (2 ^ 32 + 4820));
    [reflexivity | reflexivity | reflexivity | lia].
Defined.

(** ** Dispatch of a rows event *)

Lemma processRowsEventHandler_goroutines (c : binlogsync.Canal)
  (ctx : context.Context) (action : string) (table : ddl.Table)
  (rows : list (list binlogsync.Value)) :
  errgroup.goroutines
    (binlogsync.processRowsEventHandler_started c ctx action table rows)
  = binlogsync.errGoFn (context.WithCancel ctx) action table rows
      <$> binlogsync.matched c (ddl.Name table).
Proof.
  unfold binlogsync.processRowsEventHandler_started, binlogsync.matched.
  simpl. rewrite goroutines_foldl_Go, fmap_app. f_equal.
  destruct (binlogsync.index _ _) as [hs|]; [|done].
  case_bool_decide; [|done]. by rewrite goroutines_foldl_Go.
Qed.

Lemma errGoFn_None (ctx : context.Context) (action : string)
  (table : ddl.Table) (rows : list (list binlogsync.Value))
  (h : binlogsync.RowsEventHandler) :
  binlogsync.errGoFn ctx action table rows h tt = None
  ↔ errors.Is (binlogsync.Do h ctx action table rows) errors.Interrupted
    = false.
Proof.
  unfold binlogsync.errGoFn.
  destruct (binlogsync.Do h ctx action table rows) as [err|]; [|done].
  simpl. by case_bool_decide.
Qed.

Lemma errGoFn_Some (ctx : context.Context) (action : string)
  (table : ddl.Table) (rows : list (list binlogsync.Value))
  (h : binlogsync.RowsEventHandler) (e : errors.error) :
  binlogsync.errGoFn ctx action table rows h tt = Some e →
  errors.Is (Some e) errors.Interrupted = true.
Proof.
  unfold binlogsync.errGoFn.
  destruct (binlogsync.Do h ctx action table rows) as [err|]; [|done].
  simpl. case_bool_decide as Hk; [|done]. intros [= <-]. simpl.
  by rewrite bool_decide_eq_true.
Qed.

(** C1.  Whatever the order in which the handlers return, a dispatch has a
    result, and the result is an error of the kind Interrupted exactly when
    [Do] of one of the matched handlers returned an error of that kind; it
    is nil exactly when none did, whatever other errors they returned, and
    so it is nil when no handler is matched. *)
Theorem processRowsEventHandler_interrupted_iff (c : binlogsync.Canal)
  (ctx : context.Context) (action : string) (table : ddl.Table)
  (rows : list (list binlogsync.Value)) :
  let interrupts h :=
    errors.Is (binlogsync.Do h (context.WithCancel ctx) action table rows)
              errors.Interrupted in
  binlogsync.processRowsEventHandler c ctx action table rows
    (binlogsync.processRowsEventHandler_in_order c ctx action table rows)
  ∧ ∀ r, binlogsync.processRowsEventHandler c ctx action table rows r →
      (errors.Is r errors.Interrupted = true
       ↔ Exists (λ h, interrupts h = true)
                (binlogsync.matched c (ddl.Name table)))
      ∧ (r = None
         ↔ Forall (λ h, interrupts h = false)
                  (binlogsync.matched c (ddl.Name table)))
      ∧ (binlogsync.matched c (ddl.Name table) = [] → r = None).
Proof.
  intros interrupts. split.
  { eexists. split; [apply Wait_in_order | done]. }
  intros r (waited & Hwait & ->).
  assert (Hnone : errors.WithStack waited = None
                  ↔ Forall (λ h, interrupts h = false)
                           (binlogsync.matched c (ddl.Name table))).
  { rewrite WithStack_None, (Wait_None _ _ Hwait).
    rewrite processRowsEventHandler_goroutines, Forall_fmap.
    apply Forall_iff. intros h. apply errGoFn_None. }
  split_and!.
  - rewrite Is_WithStack. split.
    + intros His. destruct waited as [e|]; [|done].
      apply Wait_Some in Hwait as (f & Hf & Hrun).
      rewrite processRowsEventHandler_goroutines in Hf.
      apply list_elem_of_fmap in Hf as (h & -> & Hh).
      apply Exists_exists. exists h. split; [done |].
      destruct (interrupts h) eqn:Hi; [done |].
      apply errGoFn_None in Hi. congruence.
    + intros Hex. destruct waited as [e|] eqn:Hw.
      * apply Wait_Some in Hwait as (f & Hf & Hrun).
        rewrite processRowsEventHandler_goroutines in Hf.
        apply list_elem_of_fmap in Hf as (h & -> & Hh).
        by apply errGoFn_Some in Hrun.
      * exfalso. apply Exists_exists in Hex as (h & Hh & Hi).
        pose proof (proj1 Hnone eq_refl) as Hall.
        rewrite Forall_forall in Hall. specialize (Hall h Hh). congruence.
  - done.
  - intros Hnil. apply Hnone. rewrite Hnil. constructor.
Qed.

Lemma matched_at_key (c : binlogsync.Canal) (T : string) :
  binlogsync.matched c T
  = (if bool_decide (T ≠ "")
     then binlogsync.at_key (binlogsync.rsHandlers c) T else [])
    ++ binlogsync.at_key (binlogsync.rsHandlers c) "".
Proof.
  unfold binlogsync.matched, binlogsync.at_key.
  destruct (binlogsync.index _ T); [done |]. by case_bool_decide.
Qed.

Lemma errGoFn_calls_Do (ctx : context.Context) (action : string)
  (table : ddl.Table) (rows : list (list binlogsync.Value))
  (h : binlogsync.RowsEventHandler) :
  binlogsync.errGoFn ctx action table rows h tt
  = (let r := binlogsync.Do h ctx action table rows in
     if errors.Is r errors.Interrupted then errors.WithStack r else None).
Proof.
  unfold binlogsync.errGoFn.
  by destruct (binlogsync.Do h ctx action table rows).
Qed.

Lemma processRowsEventHandler_outcomes (c : binlogsync.Canal)
  (ctx : context.Context) (action : string) (table : ddl.Table)
  (rows : list (list binlogsync.Value)) :
  errgroup.returns
    (binlogsync.processRowsEventHandler_started c ctx action table rows)
  = (λ h, let r := binlogsync.Do h (context.WithCancel ctx) action table rows in
          if errors.Is r errors.Interrupted then errors.WithStack r else None)
      <$> binlogsync.matched c (ddl.Name table).
Proof.
  unfold errgroup.returns.
  rewrite processRowsEventHandler_goroutines, <- list_fmap_compose.
  apply list_fmap_ext. intros i h _. apply errGoFn_calls_Do.
Qed.

Lemma matched_named (c : binlogsync.Canal) (T : string) :
  T ≠ "" → binlogsync.matched c T = binlogsync.HandlersFor c T.
Proof.
  intros HT. rewrite matched_at_key. unfold binlogsync.HandlersFor.
  by rewrite bool_decide_eq_true_2.
Qed.


(** C3.  For a table name that is not empty, a dispatch starts, in this
    order, one function for each handler registered under the name and then
    one for each handler registered under the empty name, and each function
    calls [Do] of its handler, with the context derived for the dispatch and
    the action, the table and the rows of the event: what the functions
    return, in the order they were started, is what [Do] of these handlers
    returns on these arguments, kept under a [WithStack] when it is of the
    kind Interrupted and nil otherwise.  With nothing registered under the
    name, this holds of the handlers under the empty name alone. *)
Theorem processRowsEventHandler_exact_then_all (c : binlogsync.Canal)
  (ctx : context.Context) (action : string) (table : ddl.Table)
  (rows : list (list binlogsync.Value)) :
  let started :=
    binlogsync.processRowsEventHandler_started c ctx action table rows in
  let outcome h :=
    let r := binlogsync.Do h (context.WithCancel ctx) action table rows in
    if errors.Is r errors.Interrupted then errors.WithStack r else None in
  ddl.Name table ≠ "" →
  errgroup.goroutines started
  = binlogsync.errGoFn (context.WithCancel ctx) action table rows
      <$> binlogsync.HandlersFor c (ddl.Name table)
  ∧ errgroup.returns started
    = outcome <$> binlogsync.HandlersFor c (ddl.Name table)
  ∧ (binlogsync.at_key (binlogsync.rsHandlers c) (ddl.Name table) = [] →
     errgroup.goroutines started
     = binlogsync.errGoFn (context.WithCancel ctx) action table rows
         <$> binlogsync.at_key (binlogsync.rsHandlers c) ""
     ∧ errgroup.returns started
       = outcome <$> binlogsync.at_key (binlogsync.rsHandlers c) "").
Proof.
  intros started outcome Hname. unfold started, outcome.
  rewrite processRowsEventHandler_outcomes, processRowsEventHandler_goroutines.
  rewrite (matched_named c _ Hname). split_and!; [done | done |].
  intros Hnil. unfold binlogsync.HandlersFor. by rewrite Hnil.
Qed.


Lemma processRowsEventHandler_interrupted_iff_witness :
  let c := canalOf [("orders", [handlerReturning "first" None None;
                                handlerReturning "second" (Some errBroken) None]);
                    ("", [handlerReturning "third" None None])] in
  let r := binlogsync.processRowsEventHandler_in_order
             c context.Background "insert" ordersTable [] in
  r = None
  ∧ (errors.Is r errors.Interrupted = true
     ↔ Exists (λ h, errors.Is (binlogsync.Do h
                                 (context.WithCancel context.Background)
                                 "insert" ordersTable [])
                              errors.Interrupted = true)
              (binlogsync.matched c (ddl.Name ordersTable)))
  ∧ (r = None
     ↔ Forall (λ h, errors.Is (binlogsync.Do h
                                 (context.WithCancel context.Background)
                                 "insert" ordersTable [])
                              errors.Interrupted = false)
              (binlogsync.matched c (ddl.Name ordersTable)))
  ∧ (binlogsync.matched c (ddl.Name ordersTable) = [] → r = None).
Proof.
  intros c r. split; [vm_compute; reflexivity |].
  exact (proj2 (processRowsEventHandler_interrupted_iff
                  c context.Background "insert" ordersTable [])
               r
               (proj1 (processRowsEventHandler_interrupted_iff
                         c context.Background "insert" ordersTable []))).
Defined.

Lemma processRowsEventHandler_exact_then_all_witness :
  let c := canalOf [("orders", [handlerReturning "exact" (Some errStop) None]);
                    ("", [handlerReturning "all" (Some errBroken) None])] in
  ddl.Name ordersTable ≠ ""
  ∧ errgroup.returns
      (binlogsync.processRowsEventHandler_started
         c context.Background "insert" ordersTable [])
    = (λ h, let r := binlogsync.Do h (context.WithCancel context.Background)
                       "insert" ordersTable [] in
            if errors.Is r errors.Interrupted then errors.WithStack r
            else None)
        <$> binlogsync.HandlersFor c (ddl.Name ordersTable)
  ∧ errgroup.returns
      (binlogsync.processRowsEventHandler_started
         c context.Background "insert" ordersTable [])
    = [Some (errors.withStack errStop); None].
Proof.
  intros c.
  assert (Hname : ddl.Name ordersTable ≠ "") by (simpl; discriminate).
  split; [exact Hname |].
  pose proof (proj1 (proj2 (processRowsEventHandler_exact_then_all
                              c context.Background "insert" ordersTable []
                              Hname))) as Hret.
  split; [exact Hret |]. rewrite Hret. vm_compute. reflexivity.
Defined.


(** Scenarios of the specification, run on the embedding. *)
Example wildcard_and_exact_orders :
  binlogsync.String
    <$> binlogsync.matched
          (canalOf [("orders", [handlerReturning "exact" None None]);
                    ("", [handlerReturning "all" None None])])
          "orders"
  = ["exact"; "all"].
Proof. vm_compute. reflexivity. Qed.

Example wildcard_and_exact_customers :
  binlogsync.String
    <$> binlogsync.matched
          (canalOf [("orders", [handlerReturning "exact" None None]);
                    ("", [handlerReturning "all" None None])])
          "customers"
  = ["all"].
Proof. vm_compute. reflexivity. Qed.

Example interrupt_propagates :
  errors.Is
    (binlogsync.processRowsEventHandler_in_order
       (canalOf [("", [handlerReturning "first" (Some errStop) None;
                       handlerReturning "second" None None])])
       context.Background "update" ordersTable [])
    errors.Interrupted
  = true.
Proof. vm_compute. reflexivity. Qed.

(** ** Registration *)

Lemma at_key_Register_eq (c : binlogsync.Canal) (F : string)
  (H : list binlogsync.RowsEventHandler) :
  binlogsync.at_key
    (binlogsync.rsHandlers (binlogsync.RegisterRowsEventHandler c F H)) F
  = binlogsync.at_key (binlogsync.rsHandlers c) F ++ H.
Proof.
  unfold binlogsync.RegisterRowsEventHandler, binlogsync.at_key. simpl.
  rewrite lookup_insert_eq. simpl.
  destruct (binlogsync.rsHandlers c) as [m|]; simpl; [done |].
  by rewrite lookup_empty.
Qed.

Lemma index_Register_ne (c : binlogsync.Canal) (F F' : string)
  (H : list binlogsync.RowsEventHandler) :
  F' ≠ F →
  binlogsync.index
    (binlogsync.rsHandlers (binlogsync.RegisterRowsEventHandler c F H)) F'
  = binlogsync.index (binlogsync.rsHandlers c) F'.
Proof.
  intros Hne. unfold binlogsync.RegisterRowsEventHandler. simpl.
  rewrite lookup_insert_ne by done.
  destruct (binlogsync.rsHandlers c) as [m|]; simpl; [done |].
  by rewrite lookup_empty.
Qed.

Lemma at_key_Register_ne (c : binlogsync.Canal) (F F' : string)
  (H : list binlogsync.RowsEventHandler) :
  F' ≠ F →
  binlogsync.at_key
    (binlogsync.rsHandlers (binlogsync.RegisterRowsEventHandler c F H)) F'
  = binlogsync.at_key (binlogsync.rsHandlers c) F'.
Proof.
  intros Hne. unfold binlogsync.at_key. by rewrite index_Register_ne.
Qed.

(** C6.  [RegisterRowsEventHandler] under the filter [F] puts the handlers
    given after those already under [F] and leaves what is under every other
    filter as it was.  A handler registered twice under [F] is twice in the
    list under [F], and a dispatch that ranges over that list starts its
    [Do] twice, next to each other, among the calls it started before. *)
Theorem RegisterRowsEventHandler_appends (c : binlogsync.Canal) (F : string)
  (H : list binlogsync.RowsEventHandler) :
  binlogsync.at_key
    (binlogsync.rsHandlers (binlogsync.RegisterRowsEventHandler c F H)) F
  = binlogsync.at_key (binlogsync.rsHandlers c) F ++ H
  ∧ (∀ F', F' ≠ F →
       binlogsync.index
         (binlogsync.rsHandlers (binlogsync.RegisterRowsEventHandler c F H)) F'
       = binlogsync.index (binlogsync.rsHandlers c) F')
  ∧ ∀ h,
      let twice :=
        binlogsync.RegisterRowsEventHandler
          (binlogsync.RegisterRowsEventHandler c F [h]) F [h] in
      binlogsync.at_key (binlogsync.rsHandlers twice) F
      = binlogsync.at_key (binlogsync.rsHandlers c) F ++ [h; h]
      ∧ ∀ ctx action table rows,
          F = "" ∨ F = ddl.Name table →
          ∃ before after,
            errgroup.goroutines
              (binlogsync.processRowsEventHandler_started
                 c ctx action table rows)
            = binlogsync.errGoFn (context.WithCancel ctx) action table rows
                <$> before ++ after
            ∧ errgroup.goroutines
                (binlogsync.processRowsEventHandler_started
                   twice ctx action table rows)
              = binlogsync.errGoFn (context.WithCancel ctx) action table rows
                  <$> before ++ [h; h] ++ after.
Proof.
  split_and!.
  - apply at_key_Register_eq.
  - intros F' Hne. by apply index_Register_ne.
  - intros h twice.
    assert (Htwice : binlogsync.at_key (binlogsync.rsHandlers twice) F
                     = binlogsync.at_key (binlogsync.rsHandlers c) F ++ [h; h]).
    { unfold twice. rewrite !at_key_Register_eq. by rewrite <- app_assoc. }
    split; [done |].
    intros ctx action table rows HF.
    rewrite !processRowsEventHandler_goroutines, !matched_at_key.
    destruct (decide (F = "")) as [-> | HFne].
    + rewrite Htwice.
      exists ((if bool_decide (ddl.Name table ≠ "")
               then binlogsync.at_key (binlogsync.rsHandlers c) (ddl.Name table)
               else [])
              ++ binlogsync.at_key (binlogsync.rsHandlers c) ""), [].
      rewrite !app_nil_r. split; [done |].
      case_bool_decide as Hn; [|by rewrite <- app_assoc].
      unfold twice. rewrite !at_key_Register_ne by done.
      by rewrite <- app_assoc.
    + destruct HF as [? | ->]; [done |].
      rewrite Htwice, bool_decide_eq_true_2 by done.
      exists (binlogsync.at_key (binlogsync.rsHandlers c) (ddl.Name table)),
             (binlogsync.at_key (binlogsync.rsHandlers c) "").
      split; [done |].
      unfold twice. rewrite !at_key_Register_ne by done.
      by rewrite <- app_assoc.
Qed.

Lemma RegisterRowsEventHandler_appends_witness :
  let c := canalOf [("orders", [handlerReturning "first" None None])] in
  let h := handlerReturning "second" None None in
  "" ≠ "orders"
  ∧ binlogsync.index
      (binlogsync.rsHandlers
         (binlogsync.RegisterRowsEventHandler c "orders" [h; h])) ""
    = binlogsync.index (binlogsync.rsHandlers c) "".
Proof.
  intros c h.
  assert (Hne : "" ≠ "orders") by discriminate.
  split; [exact Hne |].
  exact (proj1 (proj2 (RegisterRowsEventHandler_appends c "orders" [h; h]))
               "" Hne).
Defined.

Example registered_twice_runs_twice :
  binlogsync.String
    <$> binlogsync.matched
          (canalOf [("orders", [handlerReturning "first" None None]);
                    ("orders", [handlerReturning "same" None None]);
                    ("orders", [handlerReturning "same" None None])])
          "orders"
  = ["first"; "same"; "same"].
Proof. vm_compute. reflexivity. Qed.

(** ** Flush *)

Lemma flush_foldl_goroutines (ctx : context.Context)
  (ranged : list (string * list binlogsync.RowsEventHandler))
  (g : errgroup.Group) :
  errgroup.goroutines
    (foldl (λ erg '(tblName, hs),
              foldl (λ erg h,
                       errgroup.Go erg (binlogsync.completeFn ctx tblName h))
                    erg hs)
           g ranged)
  = errgroup.goroutines g
    ++ ((λ p, binlogsync.completeFn ctx p.1 p.2)
          <$> binlogsync.registrations ranged).
Proof.
  revert g. induction ranged as [|[tblName hs] ranged IH]; intros g.
  - simpl. by rewrite app_nil_r.
  - cbn [foldl]. rewrite IH, goroutines_foldl_Go.
    unfold binlogsync.registrations. rewrite bind_cons, fmap_app.
    rewrite <- app_assoc. do 2 f_equal.
    rewrite <- list_fmap_compose. done.
Qed.

Lemma flushEventHandlers_goroutines (ctx : context.Context)
  (ranged : list (string * list binlogsync.RowsEventHandler)) :
  errgroup.goroutines (binlogsync.flushEventHandlers_started ctx ranged)
  = (λ p, binlogsync.completeFn (context.WithCancel ctx) p.1 p.2)
      <$> binlogsync.registrations ranged.
Proof.
  unfold binlogsync.flushEventHandlers_started. simpl.
  by rewrite flush_foldl_goroutines.
Qed.

Lemma registrations_filter_absent (F : string)
  (ranged : list (string * list binlogsync.RowsEventHandler)) :
  F ∉ ranged.*1 →
  filter (λ p, p.1 = F) (binlogsync.registrations ranged) = [].
Proof.
  unfold binlogsync.registrations.
  induction ranged as [|[k hs] ranged IH]; intros Hnot; [done |].
  rewrite bind_cons, filter_app. simpl in Hnot.
  apply not_elem_of_cons in Hnot as [Hne Hnot]. rewrite (IH Hnot), app_nil_r.
  induction hs as [|h hs IHhs]; [done |].
  rewrite fmap_cons, filter_cons_False by (simpl; congruence). done.
Qed.

Lemma registrations_filter_present (F : string)
  (hs : list binlogsync.RowsEventHandler)
  (ranged : list (string * list binlogsync.RowsEventHandler)) :
  NoDup ranged.*1 → (F, hs) ∈ ranged →
  filter (λ p, p.1 = F) (binlogsync.registrations ranged)
  = (λ h, (F, h)) <$> hs.
Proof.
  unfold binlogsync.registrations.
  induction ranged as [|[k hs'] ranged IH]; intros Hnd Hin.
  - by apply elem_of_nil in Hin.
  - rewrite bind_cons, filter_app. simpl in Hnd.
    apply NoDup_cons in Hnd as [Hk Hnd].
    apply elem_of_cons in Hin as [[= <- <-] | Hin].
    + pose proof (registrations_filter_absent F ranged Hk) as Habs.
      unfold binlogsync.registrations in Habs. rewrite Habs, app_nil_r.
      clear. induction hs as [|h hs IHhs]; [done |].
      rewrite fmap_cons, filter_cons_True by done. by rewrite IHhs.
    + assert (Hne : k ≠ F).
      { intros ->. apply Hk. apply list_elem_of_fmap. by exists (F, hs). }
      rewrite (IH Hnd Hin).
      replace (filter (λ p, p.1 = F) ((λ h, (k, h)) <$> hs')) with
        (@nil (string * binlogsync.RowsEventHandler)); [done |].
      clear -Hne. induction hs' as [|h hs' IHhs]; [done |].
      rewrite fmap_cons, filter_cons_False by (simpl; congruence). done.
Qed.

Lemma entries_lookup (c : binlogsync.Canal) (F : string)
  (hs : list binlogsync.RowsEventHandler) :
  (F, hs) ∈ binlogsync.entries c
  ↔ binlogsync.index (binlogsync.rsHandlers c) F = Some hs.
Proof.
  unfold binlogsync.entries, binlogsync.index.
  destruct (binlogsync.rsHandlers c) as [m|].
  - apply elem_of_map_to_list.
  - split; [by intros ?%elem_of_nil | done].
Qed.

Lemma entries_NoDup (c : binlogsync.Canal) : NoDup (binlogsync.entries c).*1.
Proof.
  unfold binlogsync.entries. destruct (binlogsync.rsHandlers c) as [m|].
  - apply NoDup_fst_map_to_list.
  - constructor.
Qed.

Lemma registrations_of_filter (c : binlogsync.Canal) (F : string)
  (ranged : list (string * list binlogsync.RowsEventHandler)) :
  ranged ≡ₚ binlogsync.entries c →
  filter (λ p, p.1 = F) (binlogsync.registrations ranged)
  = (λ h, (F, h)) <$> binlogsync.at_key (binlogsync.rsHandlers c) F.
Proof.
  intros Hperm.
  assert (Hnd : NoDup ranged.*1) by (rewrite Hperm; apply entries_NoDup).
  unfold binlogsync.at_key.
  destruct (binlogsync.index (binlogsync.rsHandlers c) F) as [hs|] eqn:Hidx.
  - apply registrations_filter_present; [done |].
    rewrite Hperm. by apply entries_lookup.
  - apply registrations_filter_absent. intros Hin.
    apply list_elem_of_fmap in Hin as ([k hs] & -> & Hin).
    rewrite Hperm in Hin. apply entries_lookup in Hin. simpl in Hidx.
    congruence.
Qed.

Lemma registrations_elem_of (c : binlogsync.Canal) (F : string)
  (h : binlogsync.RowsEventHandler)
  (ranged : list (string * list binlogsync.RowsEventHandler)) :
  ranged ≡ₚ binlogsync.entries c →
  (F, h) ∈ binlogsync.registrations ranged
  ↔ h ∈ binlogsync.at_key (binlogsync.rsHandlers c) F.
Proof.
  intros Hperm. unfold binlogsync.registrations, binlogsync.at_key.
  rewrite list_elem_of_bind. split.
  - intros ([k hs] & Hin & Hk).
    apply list_elem_of_fmap in Hin as (h' & [= -> ->] & Hh).
    rewrite Hperm in Hk. apply entries_lookup in Hk. by rewrite Hk.
  - intros Hin.
    destruct (binlogsync.index (binlogsync.rsHandlers c) F) as [hs|] eqn:Hidx;
      [|by apply elem_of_nil in Hin].
    exists (F, hs). split.
    + apply list_elem_of_fmap. eauto.
    + rewrite Hperm. by apply entries_lookup.
Qed.

Lemma completeFn_None (ctx : context.Context) (tblName : string)
  (h : binlogsync.RowsEventHandler) :
  binlogsync.completeFn ctx tblName h tt = None
  ↔ errors.Is (binlogsync.Complete h ctx) errors.Interrupted = false.
Proof.
  unfold binlogsync.completeFn.
  destruct (binlogsync.Complete h ctx) as [err|]; [|done].
  simpl. by case_bool_decide.
Qed.

Lemma completeFn_Some (ctx : context.Context) (tblName : string)
  (h : binlogsync.RowsEventHandler) (e : errors.error) :
  binlogsync.completeFn ctx tblName h tt = Some e →
  errors.Is (Some e) errors.Interrupted = true.
Proof.
  unfold binlogsync.completeFn.
  destruct (binlogsync.Complete h ctx) as [err|]; [|done].
  simpl. case_bool_decide as Hk; [|done]. intros [= <-]. simpl.
  by rewrite bool_decide_eq_true.
Qed.

(** C5.  Whatever the order in which the map is ranged over and in which
    the handlers return, a flush has a result.  The functions it starts are
    one call of [Complete] for each registration, and the registrations
    under a filter are the elements of the list under that filter, each
    once: a handler under two filters, or twice under one, is completed as
    many times.  The result is an error exactly when [Complete] of a
    registered handler returned an error of the kind Interrupted, and it is
    then of that kind; errors of other kinds leave it nil. *)
Theorem flushEventHandlers_completes_each_registration (c : binlogsync.Canal)
  (ctx : context.Context) :
  binlogsync.flushEventHandlers c ctx
    (binlogsync.flushEventHandlers_in_order c ctx)
  ∧ (∀ ranged, ranged ≡ₚ binlogsync.entries c →
       errgroup.goroutines (binlogsync.flushEventHandlers_started ctx ranged)
       = (λ p, binlogsync.completeFn (context.WithCancel ctx) p.1 p.2)
           <$> binlogsync.registrations ranged
       ∧ ∀ F, filter (λ p, p.1 = F) (binlogsync.registrations ranged)
              = (λ h, (F, h))
                  <$> binlogsync.at_key (binlogsync.rsHandlers c) F)
  ∧ ∀ r, binlogsync.flushEventHandlers c ctx r →
      (r ≠ None
       ↔ ∃ F h, h ∈ binlogsync.at_key (binlogsync.rsHandlers c) F
                ∧ errors.Is (binlogsync.Complete h (context.WithCancel ctx))
                            errors.Interrupted = true)
      ∧ (r = None ∨ errors.Is r errors.Interrupted = true).
Proof.
  split_and!.
  - exists (binlogsync.entries c). eexists.
    split_and!; [done | apply Wait_in_order | done].
  - intros ranged Hperm. split.
    + apply flushEventHandlers_goroutines.
    + intros F. by apply registrations_of_filter.
  - intros r (ranged & waited & Hperm & Hwait & ->). split.
    + rewrite Wrap_None. split.
      * intros Hsome. destruct waited as [e|]; [|done].
        apply Wait_Some in Hwait as (f & Hf & Hrun).
        rewrite flushEventHandlers_goroutines in Hf.
        apply list_elem_of_fmap in Hf as ([F h] & -> & Hreg).
        apply (registrations_elem_of c) in Hreg; [|done].
        exists F, h. split; [done |]. simpl in Hrun.
        destruct (errors.Is _ errors.Interrupted) eqn:Hi; [done |].
        apply (completeFn_None _ F) in Hi. congruence.
      * intros (F & h & Hh & Hi) Hnone.
        apply (Wait_None _ _ Hwait) in Hnone.
        rewrite flushEventHandlers_goroutines, Forall_fmap in Hnone.
        rewrite Forall_forall in Hnone.
        apply (registrations_elem_of c F h ranged Hperm) in Hh.
        specialize (Hnone _ Hh). simpl in Hnone.
        apply completeFn_None in Hnone. congruence.
    + destruct waited as [e|]; [right | by left].
      apply Wait_Some in Hwait as (f & Hf & Hrun).
      rewrite flushEventHandlers_goroutines in Hf.
      apply list_elem_of_fmap in Hf as ([F h] & -> & _).
      apply completeFn_Some in Hrun. by rewrite Is_Wrap.
Qed.

Lemma flushEventHandlers_completes_each_registration_witness :
  let c := canalOf [("orders", [handlerReturning "first" None None;
                                handlerReturning "second" None (Some errBroken)]);
                    ("", [handlerReturning "third" None None])] in
  let r := binlogsync.flushEventHandlers_in_order c context.Background in
  r = None
  ∧ (r ≠ None
     ↔ ∃ F h, h ∈ binlogsync.at_key (binlogsync.rsHandlers c) F
              ∧ errors.Is (binlogsync.Complete h
                             (context.WithCancel context.Background))
                          errors.Interrupted = true)
  ∧ (r = None ∨ errors.Is r errors.Interrupted = true).
Proof.
  intros c r. split; [vm_compute; reflexivity |].
  exact (proj2 (proj2 (flushEventHandlers_completes_each_registration
                         c context.Background))
               r
               (proj1 (flushEventHandlers_completes_each_registration
                         c context.Background))).
Defined.

Example flush_one_task_per_registration :
  length (errgroup.goroutines
            (binlogsync.flushEventHandlers_started context.Background
               (binlogsync.entries
                  (canalOf [("orders", [handlerReturning "same" None None;
                                        handlerReturning "same" None None]);
                            ("", [handlerReturning "same" None None])]))))
  = 3%nat.
Proof. vm_compute. reflexivity. Qed.

Example flush_interrupted :
  errors.Is
    (binlogsync.flushEventHandlers_in_order
       (canalOf [("orders", [handlerReturning "first" None (Some errBroken)]);
                 ("", [handlerReturning "second" None (Some errStop)])])
       context.Background)
    errors.Interrupted
  = true.
Proof. vm_compute. reflexivity. Qed.

(** * Further properties of the code *)

(** ** The master position: outcomes of a load, and runs of calls *)

(** X1.  [loadMasterInfo] returns either a position and no error, or no
    position and an error, never both and never neither.  It returns a
    position when its three steps succeed: the position of the name and the
    offset read, the offset within [uint32], with the zero time as the time
    of its last save.  Otherwise it returns the error of the first step that
    failed, wrapped with the message of that step. *)
Theorem loadMasterInfo_position_xor_error (exec : mysql.Executer) :
  (∃ res name pos,
     mysql.Execute exec "SHOW MASTER STATUS" = inl res
     ∧ mysql.GetString res 0%nat 0%nat = inl name
     ∧ mysql.GetUint res 0%nat 1%nat = inl pos
     ∧ mybinlogsync.loadMasterInfo exec
       = (Some {| mybinlogsync.Name := name;
                  mybinlogsync.Position := uint32 pos;
                  mybinlogsync.lastSaveTime := 0 |}, None)
     ∧ 0 ≤ uint32 pos < 2 ^ 32)
  ∨ (∃ err msg,
       mybinlogsync.loadMasterInfo exec = (None, errors.Wrap (Some err) msg)
       ∧ errors.Wrap (Some err) msg ≠ None
       ∧ ((mysql.Execute exec "SHOW MASTER STATUS" = inr err
           ∧ msg = mybinlogsync.msgExecute)
          ∨ (∃ res, mysql.Execute exec "SHOW MASTER STATUS" = inl res
                    ∧ mysql.GetString res 0%nat 0%nat = inr err
                    ∧ msg = mybinlogsync.msgFirstColumn)
          ∨ (∃ res name,
               mysql.Execute exec "SHOW MASTER STATUS" = inl res
               ∧ mysql.GetString res 0%nat 0%nat = inl name
               ∧ mysql.GetUint res 0%nat 1%nat = inr err
               ∧ msg = mybinlogsync.msgSecondColumn))).
Proof.
  unfold mybinlogsync.loadMasterInfo.
  destruct (mysql.Execute exec _) as [res | err] eqn:Hexec.
  2:{ right. exists err, mybinlogsync.msgExecute.
      split_and!; [done | done | by left]. }
  destruct (mysql.GetString res _ _) as [name | err] eqn:Hname.
  2:{ right. exists err, mybinlogsync.msgFirstColumn.
      split_and!; [done | done |]. right. left. by exists res. }
  destruct (mysql.GetUint res _ _) as [pos | err] eqn:Hpos.
  2:{ right. exists err, mybinlogsync.msgSecondColumn.
      split_and!; [done | done |]. right. right. by exists res, name. }
  left. exists res, name, pos.
  pose proof (Z.mod_pos_bound pos (2 ^ 32) ltac:(lia)) as Hbound.
  split_and!; try done; unfold uint32; lia.
Qed.

Lemma Save_exact (m : mybinlogsync.masterInfo) (force : bool) (n : Z) :
  mybinlogsync.Save m force n
  = (if force || (time.Second <=? n - mybinlogsync.lastSaveTime m)
     then {| mybinlogsync.Name := mybinlogsync.Name m;
             mybinlogsync.Position := mybinlogsync.Position m;
             mybinlogsync.lastSaveTime := n |}
     else m, [], None).
Proof.
  destruct force; simpl.
  - by rewrite Save_otherwise by (by left).
  - destruct (Z.leb_spec time.Second (n - mybinlogsync.lastSaveTime m)).
    + rewrite Save_otherwise by (by right). done.
    + by rewrite Save_debounced.
Qed.

(** X2.  The decision of [Save] is that of the exact difference of the two
    times, also where the difference overflows a [Duration] and [Sub]
    saturates: the time of the call is recorded when the save is forced or
    at least a second lies between the last save and the call, and nothing
    changes otherwise.  No error is returned either way. *)
Theorem Save_decides_on_exact_difference (m : mybinlogsync.masterInfo)
  (force : bool) (n : Z) :
  mybinlogsync.Save m force n
  = (if force || (time.Second <=? n - mybinlogsync.lastSaveTime m)
     then {| mybinlogsync.Name := mybinlogsync.Name m;
             mybinlogsync.Position := mybinlogsync.Position m;
             mybinlogsync.lastSaveTime := n |}
     else m, [], None).
Proof. apply Save_exact. Qed.

(** X3.  The first unforced [Save] of a position that was just loaded is
    never debounced, whenever the clock reads at least one second after the
    zero time. *)
Theorem Save_after_load_records (exec : mysql.Executer)
  (m : mybinlogsync.masterInfo) (n : Z) :
  mybinlogsync.loadMasterInfo exec = (Some m, None) →
  time.Second ≤ n →
  mybinlogsync.Save m false n
  = ({| mybinlogsync.Name := mybinlogsync.Name m;
        mybinlogsync.Position := mybinlogsync.Position m;
        mybinlogsync.lastSaveTime := n |}, [], None).
Proof.
  intros Hload Hn. unfold mybinlogsync.loadMasterInfo in Hload.
  destruct (mysql.Execute exec _) as [res | err]; [|done].
  destruct (mysql.GetString res _ _) as [name | err]; [|done].
  destruct (mysql.GetUint res _ _) as [pos | err]; [|done].
  injection Hload as <-. apply Save_otherwise. right. simpl. lia.
Qed.

Lemma Save_after_load_records_witness :
  ∃ m, mybinlogsync.loadMasterInfo (statusOf "mysql-bin.000005" 4820)
       = (Some m, None)
       ∧ mybinlogsync.Save m false 63650000000000000000
         = ({| mybinlogsync.Name := mybinlogsync.Name m;
               mybinlogsync.Position := mybinlogsync.Position m;
               mybinlogsync.lastSaveTime := 63650000000000000000 |},
            [], None).
Proof.
  eexists. split; [reflexivity |].
  apply (Save_after_load_records (statusOf "mysql-bin.000005" 4820));
    [reflexivity | unfold time.Second; lia].
Defined.

(** X4.  An unforced [Save] at the reading of a [Save] that was just made,
    forced or not, changes nothing: saving twice at one instant is saving
    once. *)
Theorem Save_again_at_same_reading (m : mybinlogsync.masterInfo)
  (force : bool) (n : Z) :
  mybinlogsync.Save (mybinlogsync.Save m force n).1.1 false n
  = ((mybinlogsync.Save m force n).1.1, [], None).
Proof.
  rewrite (Save_exact m force n).
  destruct (force || _) eqn:Hd; simpl.
  - apply Save_debounced. simpl. unfold time.Second. lia.
  - apply orb_false_iff in Hd as [-> Hlt].
    apply Save_debounced. apply Z.leb_gt in Hlt. done.
Qed.

Lemma savedAt_cons (m : mybinlogsync.masterInfo) (n : Z) (ns : list Z) :
  let m' := (mybinlogsync.Save m false n).1.1 in
  (mybinlogsync.lastSaveTime m' = mybinlogsync.lastSaveTime m
   ∧ savedAt m (n :: ns) = savedAt m' ns)
  ∨ (mybinlogsync.lastSaveTime m' = n
     ∧ time.Second ≤ n - mybinlogsync.lastSaveTime m
     ∧ savedAt m (n :: ns) = n :: savedAt m' ns).
Proof.
  intros m'. unfold m'. simpl savedAt.
  rewrite (Save_exact m false n). simpl.
  destruct (Z.leb_spec time.Second (n - mybinlogsync.lastSaveTime m)) as [H|H];
    simpl.
  - right. rewrite bool_decide_eq_false_2; [done |].
    unfold time.Second in H. lia.
  - left. by rewrite bool_decide_eq_true_2.
Qed.

(** X5.  However often and at whatever readings [Save] is called unforced,
    the times it records are at least one second apart, each from the one
    before, the first of them from the time of the last save before the
    calls; and the time of the last save the calls leave is the last of
    them. *)
Theorem unforced_saves_one_second_apart (m : mybinlogsync.masterInfo)
  (ns : list Z) :
  Sorted (λ a b, time.Second ≤ b - a)
         (mybinlogsync.lastSaveTime m :: savedAt m ns)
  ∧ mybinlogsync.lastSaveTime (run m (callSave false <$> ns))
    = default (mybinlogsync.lastSaveTime m) (last (savedAt m ns)).
Proof.
  revert m. induction ns as [|n ns IH]; intros m.
  - split; [repeat constructor | done].
  - destruct (IH (mybinlogsync.Save m false n).1.1) as [IHs IHl].
    unfold run in *. rewrite fmap_cons. cbn [foldl step]. rewrite IHl.
    destruct (savedAt_cons m n ns) as [[Hsame ->] | (Hn & Hgap & ->)].
    + rewrite Hsame in *. done.
    + rewrite Hn in *. split.
      * apply Sorted_cons; [exact IHs | apply HdRel_cons; exact Hgap].
      * rewrite last_cons. by destruct (last _).
Qed.

Lemma run_snoc (m : mybinlogsync.masterInfo) (calls : list call) (c : call) :
  run m (calls ++ [c]) = step (run m calls) c.
Proof. unfold run. by rewrite foldl_app. Qed.

(** X6.  After any calls, the position a [masterInfo] reports is the one
    the last [Update] among them set, and the one it started with when there
    is none: no [Save] and no [Close] moves it. *)
Theorem run_position_is_last_update (m : mybinlogsync.masterInfo)
  (calls : list call) :
  mybinlogsync.Pos (run m calls)
  = match lastUpdate calls with
    | Some (name, pos) => {| mysql.Name := name; mysql.Pos := pos |}
    | None => mybinlogsync.Pos m
    end.
Proof.
  induction calls as [|c calls IH] using rev_ind; [done |].
  rewrite run_snoc. unfold lastUpdate in *. rewrite foldl_app. simpl.
  destruct c as [force n | name pos | n]; simpl.
  - rewrite <- IH, (Save_exact _ force n).
    by destruct (force || _).
  - done.
  - rewrite <- IH. done.
Qed.

Lemma step_lastSaveTime (m1 m2 : mybinlogsync.masterInfo) (c : call) :
  mybinlogsync.lastSaveTime m1 = mybinlogsync.lastSaveTime m2 →
  mybinlogsync.lastSaveTime (step m1 c) = mybinlogsync.lastSaveTime (step m2 c).
Proof.
  intros H. destruct c as [force n | name pos | n]; simpl; [| done | done].
  rewrite !Save_exact, H.
  by destruct (force || _).
Qed.

(** X7.  The time of the last save that any calls leave is the one they
    leave with every [Update] taken out: an [Update] neither counts as a
    save nor restarts the second of the debounce. *)
Theorem run_debounce_ignores_updates (m : mybinlogsync.masterInfo)
  (calls : list call) :
  mybinlogsync.lastSaveTime (run m calls)
  = mybinlogsync.lastSaveTime
      (run m (filter (λ c, isUpdate c = false) calls)).
Proof.
  induction calls as [|c calls IH] using rev_ind; [done |].
  rewrite filter_app, run_snoc.
  destruct c as [force n | name pos | n].
  - rewrite filter_cons_True by done. rewrite filter_nil, run_snoc.
    by apply step_lastSaveTime.
  - rewrite filter_cons_False by done. rewrite filter_nil, app_nil_r.
    by rewrite <- IH.
  - rewrite filter_cons_True by done. rewrite filter_nil, run_snoc.
    by apply step_lastSaveTime.
Qed.

(** ** Registration: how calls compose *)

(** X8.  Registering handlers in one call is registering them in two: the
    canal after [RegisterRowsEventHandler] with the handlers [H1 ++ H2] is
    the canal after registering [H1] and then [H2] under the same name. *)
Theorem RegisterRowsEventHandler_app (c : binlogsync.Canal) (F : string)
  (H1 H2 : list binlogsync.RowsEventHandler) :
  binlogsync.RegisterRowsEventHandler c F (H1 ++ H2)
  = binlogsync.RegisterRowsEventHandler
      (binlogsync.RegisterRowsEventHandler c F H1) F H2.
Proof.
  unfold binlogsync.RegisterRowsEventHandler. simpl.
  rewrite lookup_insert_eq, insert_insert_eq. simpl.
  by rewrite <- app_assoc.
Qed.

(** X9.  Registrations under two different names do not depend on the
    order in which they are made. *)
Theorem RegisterRowsEventHandler_comm (c : binlogsync.Canal) (F1 F2 : string)
  (H1 H2 : list binlogsync.RowsEventHandler) :
  F1 ≠ F2 →
  binlogsync.RegisterRowsEventHandler
    (binlogsync.RegisterRowsEventHandler c F1 H1) F2 H2
  = binlogsync.RegisterRowsEventHandler
      (binlogsync.RegisterRowsEventHandler c F2 H2) F1 H1.
Proof.
  intros Hne. unfold binlogsync.RegisterRowsEventHandler. simpl.
  rewrite !lookup_insert_ne by done.
  by rewrite insert_insert_ne.
Qed.

Lemma RegisterRowsEventHandler_comm_witness :
  let h1 := handlerReturning "first" None None in
  let h2 := handlerReturning "second" None None in
  let c := canalOf [("", [h1])] in
  binlogsync.RegisterRowsEventHandler
    (binlogsync.RegisterRowsEventHandler c "orders" [h1]) "customers" [h2]
  = binlogsync.RegisterRowsEventHandler
      (binlogsync.RegisterRowsEventHandler c "customers" [h2]) "orders" [h1].
Proof.
  intros h1 h2 c.
  apply (RegisterRowsEventHandler_comm c "orders" "customers" [h1] [h2]).
  discriminate.
Defined.

(** X10.  What a registration does to a dispatch.  Under a name that is
    neither empty nor the table's, nothing.  Under the empty name, the new
    handlers are started after all that were started before.  Under the
    table's name, when it is not empty, the new handlers are started after
    the older ones of that name and before every handler of the empty name,
    also those registered earlier. *)
Theorem RegisterRowsEventHandler_dispatch (c : binlogsync.Canal) (F : string)
  (H : list binlogsync.RowsEventHandler) (ctx : context.Context)
  (action : string) (table : ddl.Table) (rows : list (list binlogsync.Value)) :
  let c' := binlogsync.RegisterRowsEventHandler c F H in
  let started c :=
    errgroup.goroutines
      (binlogsync.processRowsEventHandler_started c ctx action table rows) in
  let do := binlogsync.errGoFn (context.WithCancel ctx) action table rows in
  (F ≠ "" → F ≠ ddl.Name table → started c' = started c)
  ∧ (F = "" → started c' = started c ++ (do <$> H))
  ∧ (F ≠ "" → F = ddl.Name table →
     started c'
     = do <$> binlogsync.at_key (binlogsync.rsHandlers c) F
              ++ H ++ binlogsync.at_key (binlogsync.rsHandlers c) "").
Proof.
  intros c' started do. unfold started, do, c'.
  rewrite !processRowsEventHandler_goroutines, !matched_at_key.
  split_and!.
  - intros Hne HneT. rewrite (at_key_Register_ne c F "") by done.
    case_bool_decide; [|done]. by rewrite at_key_Register_ne.
  - intros ->. rewrite at_key_Register_eq, <- fmap_app, <- app_assoc.
    case_bool_decide as Hn; [|done]. by rewrite at_key_Register_ne.
  - intros Hne <-. rewrite bool_decide_eq_true_2 by done.
    rewrite at_key_Register_eq, (at_key_Register_ne c F "") by done.
    by rewrite <- app_assoc.
Qed.

Lemma RegisterRowsEventHandler_dispatch_witness :
  let c := canalOf [("", [handlerReturning "all" None None])] in
  let h := handlerReturning "exact" None None in
  errgroup.goroutines
    (binlogsync.processRowsEventHandler_started
       (binlogsync.RegisterRowsEventHandler c "orders" [h])
       context.Background "insert" ordersTable [])
  = binlogsync.errGoFn (context.WithCancel context.Background)
      "insert" ordersTable []
      <$> binlogsync.at_key (binlogsync.rsHandlers c) "orders"
          ++ [h] ++ binlogsync.at_key (binlogsync.rsHandlers c) "".
Proof.
  intros c h.
  apply (proj2 (proj2 (RegisterRowsEventHandler_dispatch
                         c "orders" [h] context.Background "insert"
                         ordersTable [])));
    [discriminate | reflexivity].
Defined.

(** ** Dispatch and flush: which error comes back *)

Lemma errGoFn_returns (ctx : context.Context) (action : string)
  (table : ddl.Table) (rows : list (list binlogsync.Value))
  (h : binlogsync.RowsEventHandler) (e : errors.error) :
  binlogsync.errGoFn ctx action table rows h tt = Some e
  ↔ ∃ err, binlogsync.Do h ctx action table rows = Some err
           ∧ errors.Is (Some err) errors.Interrupted = true
           ∧ e = errors.withStack err.
Proof.
  unfold binlogsync.errGoFn.
  destruct (binlogsync.Do h ctx action table rows) as [err|].
  - destruct (errors.Is (Some err) errors.Interrupted) eqn:Hi; simpl.
    + split; [intros [= <-]; eauto | by intros (? & [= <-] & _ & ->)].
    + split; [done | intros (? & [= <-] & His & _); simpl in *; congruence].
  - split; [done | by intros (? & ? & _)].
Qed.

Lemma completeFn_returns (ctx : context.Context) (tblName : string)
  (h : binlogsync.RowsEventHandler) (e : errors.error) :
  binlogsync.completeFn ctx tblName h tt = Some e
  ↔ ∃ err, binlogsync.Complete h ctx = Some err
           ∧ errors.Is (Some err) errors.Interrupted = true
           ∧ e = errors.withStack err.
Proof.
  unfold binlogsync.completeFn.
  destruct (binlogsync.Complete h ctx) as [err|].
  - destruct (errors.Is (Some err) errors.Interrupted) eqn:Hi; simpl.
    + split; [intros [= <-]; eauto | by intros (? & [= <-] & _ & ->)].
    + split; [done | intros (? & [= <-] & His & _); simpl in *; congruence].
  - split; [done | by intros (? & ? & _)].
Qed.

(** X11.  An error that a dispatch returns, in whatever order the handlers
    returned, is an error of the kind Interrupted that [Do] of a matched
    handler returned, under two [WithStack]: the dispatch makes no error of
    its own and passes no error of another kind on. *)
Theorem processRowsEventHandler_returns (c : binlogsync.Canal)
  (ctx : context.Context) (action : string) (table : ddl.Table)
  (rows : list (list binlogsync.Value)) (e : errors.error) :
  binlogsync.processRowsEventHandler c ctx action table rows (Some e) →
  ∃ h err,
    h ∈ binlogsync.matched c (ddl.Name table)
    ∧ binlogsync.Do h (context.WithCancel ctx) action table rows = Some err
    ∧ errors.Is (Some err) errors.Interrupted = true
    ∧ e = errors.withStack (errors.withStack err).
Proof.
  intros (waited & Hwait & He). destruct waited as [e'|]; [|done].
  injection He as ->.
  apply Wait_Some in Hwait as (f & Hf & Hrun).
  rewrite processRowsEventHandler_goroutines in Hf.
  apply list_elem_of_fmap in Hf as (h & -> & Hh).
  apply errGoFn_returns in Hrun as (err & HDo & Hi & ->).
  by exists h, err.
Qed.

Lemma processRowsEventHandler_returns_witness :
  let c := canalOf [("orders", [handlerReturning "first" (Some errBroken) None]);
                    ("", [handlerReturning "second" (Some errStop) None])] in
  ∃ h err,
    h ∈ binlogsync.matched c (ddl.Name ordersTable)
    ∧ binlogsync.Do h (context.WithCancel context.Background)
        "update" ordersTable [] = Some err
    ∧ errors.Is (Some err) errors.Interrupted = true
    ∧ errors.withStack (errors.withStack errStop)
      = errors.withStack (errors.withStack err).
Proof.
  intros c.
  apply (processRowsEventHandler_returns c context.Background "update"
           ordersTable [] (errors.withStack (errors.withStack errStop))).
  exists (Some (errors.withStack errStop)). split; [|reflexivity].
  eexists. split; [reflexivity |]. vm_compute. reflexivity.
Defined.

(** X12.  An error that a flush returns, in whatever order it ranged over
    the map and the handlers returned, is an error of the kind Interrupted
    that [Complete] of a registered handler returned, under [WithStack] and
    the [Wrap] with the message of the flush. *)
Theorem flushEventHandlers_returns (c : binlogsync.Canal)
  (ctx : context.Context) (e : errors.error) :
  binlogsync.flushEventHandlers c ctx (Some e) →
  ∃ F h err,
    h ∈ binlogsync.at_key (binlogsync.rsHandlers c) F
    ∧ binlogsync.Complete h (context.WithCancel ctx) = Some err
    ∧ errors.Is (Some err) errors.Interrupted = true
    ∧ Some e = errors.Wrap (Some (errors.withStack err)) binlogsync.msgFlush.
Proof.
  intros (ranged & waited & Hperm & Hwait & He).
  destruct waited as [e'|]; [|done]. injection He as ->.
  apply Wait_Some in Hwait as (f & Hf & Hrun).
  rewrite flushEventHandlers_goroutines in Hf.
  apply list_elem_of_fmap in Hf as ([F h] & -> & Hreg).
  apply (registrations_elem_of c) in Hreg; [|done].
  apply completeFn_returns in Hrun as (err & HC & Hi & ->).
  by exists F, h, err.
Qed.

Lemma flushEventHandlers_returns_witness :
  let c := canalOf [("orders", [handlerReturning "first" None (Some errBroken)]);
                    ("", [handlerReturning "second" None (Some errStop)])] in
  ∃ F h err,
    h ∈ binlogsync.at_key (binlogsync.rsHandlers c) F
    ∧ binlogsync.Complete h (context.WithCancel context.Background) = Some err
    ∧ errors.Is (Some err) errors.Interrupted = true
    ∧ Some (errors.withStack
              (errors.withMessage (errors.withStack errStop)
                 binlogsync.msgFlush))
      = errors.Wrap (Some (errors.withStack err)) binlogsync.msgFlush.
Proof.
  intros c.
  apply (flushEventHandlers_returns c context.Background).
  exists (binlogsync.entries c), (Some (errors.withStack errStop)).
  split_and!; [reflexivity | | reflexivity].
  eexists. split; [reflexivity |]. vm_compute. reflexivity.
Defined.

(** ** Flush: the order of the map, and the number of calls *)

Lemma flush_returns_Permutation (ctx : context.Context)
  (ranged1 ranged2 : list (string * list binlogsync.RowsEventHandler)) :
  ranged1 ≡ₚ ranged2 →
  errgroup.returns (binlogsync.flushEventHandlers_started ctx ranged1)
  ≡ₚ errgroup.returns (binlogsync.flushEventHandlers_started ctx ranged2).
Proof.
  intros Hperm. unfold errgroup.returns.
  rewrite !flushEventHandlers_goroutines.
  unfold binlogsync.registrations. by rewrite Hperm.
Qed.

(** X13.  The order in which the map of handlers is ranged over does not
    bear on what a flush can return: its results are those of the flush that
    ranges over the entries in the one order of [entries]. *)
Theorem flushEventHandlers_any_map_order (c : binlogsync.Canal)
  (ctx : context.Context) (r : option errors.error) :
  binlogsync.flushEventHandlers c ctx r
  ↔ ∃ waited,
      errgroup.Wait
        (binlogsync.flushEventHandlers_started ctx (binlogsync.entries c))
        waited
      ∧ r = errors.Wrap waited binlogsync.msgFlush.
Proof.
  split.
  - intros (ranged & waited & Hperm & (returned & Hret & ->) & ->).
    eexists. split; [|done]. exists returned. split; [|done].
    rewrite Hret. by apply flush_returns_Permutation.
  - intros (waited & Hwait & ->). by exists (binlogsync.entries c), waited.
Qed.

Lemma registrations_length
  (ranged : list (string * list binlogsync.RowsEventHandler)) :
  length (binlogsync.registrations ranged)
  = sum_list (length <$> ranged.*2).
Proof.
  unfold binlogsync.registrations.
  induction ranged as [|[k hs] ranged IH]; [done |].
  rewrite bind_cons, length_app, length_fmap, IH. done.
Qed.

Lemma entries_Register (c : binlogsync.Canal) (F : string)
  (H : list binlogsync.RowsEventHandler) :
  ∃ rest,
    binlogsync.entries (binlogsync.RegisterRowsEventHandler c F H)
    ≡ₚ (F, binlogsync.at_key (binlogsync.rsHandlers c) F ++ H) :: rest
    ∧ sum_list (length <$> (binlogsync.entries c).*2)
      = (length (binlogsync.at_key (binlogsync.rsHandlers c) F)
         + sum_list (length <$> rest.*2))%nat.
Proof.
  unfold binlogsync.entries, binlogsync.RegisterRowsEventHandler,
    binlogsync.at_key, binlogsync.index. simpl.
  destruct (binlogsync.rsHandlers c) as [m|].
  - exists (map_to_list (delete F m)). split.
    + rewrite <- insert_delete_eq.
      apply map_to_list_insert, lookup_delete_eq.
    + destruct (m !! F) as [hs|] eqn:Hm; simpl.
      * by rewrite <- (map_to_list_delete m F hs Hm).
      * by rewrite delete_id.
  - exists []. split; [|done].
    rewrite lookup_empty. simpl.
    by rewrite insert_empty, map_to_list_singleton.
Qed.

(** X14.  A flush starts as many calls of [Complete] as there are handlers
    in the lists of the map, in whatever order it ranges over the map, and a
    registration of [H] adds the length of [H] to that number: none when no
    handler is given, although the name then enters the map. *)
Theorem flushEventHandlers_count (c : binlogsync.Canal) (F : string)
  (H : list binlogsync.RowsEventHandler) (ctx : context.Context)
  (ranged ranged' : list (string * list binlogsync.RowsEventHandler)) :
  ranged ≡ₚ binlogsync.entries c →
  ranged' ≡ₚ binlogsync.entries (binlogsync.RegisterRowsEventHandler c F H) →
  length (errgroup.goroutines
            (binlogsync.flushEventHandlers_started ctx ranged))
  = sum_list (length <$> (binlogsync.entries c).*2)
  ∧ length (errgroup.goroutines
              (binlogsync.flushEventHandlers_started ctx ranged'))
    = (length (errgroup.goroutines
                 (binlogsync.flushEventHandlers_started ctx ranged))
       + length H)%nat.
Proof.
  intros Hperm Hperm'.
  rewrite !flushEventHandlers_goroutines, !length_fmap, !registrations_length.
  rewrite Hperm, Hperm'. split; [done |].
  destruct (entries_Register c F H) as (rest & -> & ->).
  rewrite !fmap_cons. cbn [sum_list_with snd].
  rewrite length_app. unfold id. lia.
Qed.

Lemma flushEventHandlers_count_witness :
  let h := handlerReturning "same" None None in
  let c := canalOf [("orders", [h; h]); ("", [h])] in
  let c' := binlogsync.RegisterRowsEventHandler c "orders" [h; h] in
  length (errgroup.goroutines
            (binlogsync.flushEventHandlers_started context.Background
               (binlogsync.entries c)))
  = sum_list (length <$> (binlogsync.entries c).*2)
  ∧ length (errgroup.goroutines
              (binlogsync.flushEventHandlers_started context.Background
                 (binlogsync.entries c')))
    = (length (errgroup.goroutines
                 (binlogsync.flushEventHandlers_started context.Background
                    (binlogsync.entries c)))
       + length [h; h])%nat.
Proof.
  intros h c c'.
  apply (flushEventHandlers_count c "orders" [h; h] context.Background);
    reflexivity.
Defined.

(** ** The UPDATE statement builder *)

Lemma AddColumns_SetClauses {Condition BuilderConditional : Type}
  (Column : string → Condition)
  (b : @dml.Update Condition BuilderConditional) (columnNames : list string) :
  dml.AddColumns Column b columnNames
  = {| dml.cachedSQL := dml.cachedSQL b;
       dml.conditional := dml.conditional b;
       dml.SetClausAliases := dml.SetClausAliases b;
       dml.SetClauses := dml.SetClauses b ++ (Column <$> columnNames) |}.
Proof.
  unfold dml.AddColumns. revert b.
  induction columnNames as [|col cols IH]; intros b.
  - simpl. rewrite app_nil_r. by destruct b.
  - cbn [foldl]. rewrite IH. simpl. by rewrite <- app_assoc.
Qed.

(** X15.  [AddColumns] is [Set] of the conditions [Column] makes of the
    names, in their order: the loop that appends them one by one appends
    them all, and touches nothing but the SET clauses. *)
Theorem AddColumns_is_Set_of_Columns {Condition BuilderConditional : Type}
  (Column : string → Condition)
  (b : @dml.Update Condition BuilderConditional) (columnNames : list string) :
  dml.AddColumns Column b columnNames
  = dml.Set_ b (Column <$> columnNames).
Proof. by rewrite AddColumns_SetClauses. Qed.

(** X16.  What [writeBuildCache] leaves: the SQL given is read back by
    [readBuildCache], the SET clauses and their aliases are gone, and
    [validate] then goes by the cached SQL alone, passing when it is longer
    than one byte; a cache of one byte or none is not taken as validated,
    and with the clauses gone [validate] fails with an error of the kind
    Empty. *)
Theorem writeBuildCache_then_validate {Condition BuilderConditional : Type}
  (zero : BuilderConditional)
  (b : @dml.Update Condition BuilderConditional) (sql : list Byte.byte) :
  let b' := dml.writeBuildCache zero b sql in
  dml.readBuildCache b' = sql
  ∧ dml.SetClauses b' = [] ∧ dml.SetClausAliases b' = []
  ∧ (dml.validate b' = None ↔ (1 < length sql)%nat)
  ∧ ((length sql ≤ 1)%nat →
     ∃ e, dml.validate b' = Some e ∧ dml.kindOf e = dml.Empty).
Proof.
  intros b'. split_and!; [done | done | done | |].
  - unfold dml.validate. simpl. destruct (Nat.ltb_spec 1 (length sql)).
    + done.
    + split; [done | lia].
  - intros Hlen. unfold dml.validate. simpl.
    destruct (Nat.ltb_spec 1 (length sql)); [lia |]. by eexists.
Qed.

Lemma writeBuildCache_then_validate_witness :
  ∃ e, dml.validate
         (dml.writeBuildCache tt
            {| dml.cachedSQL := []; dml.conditional := tt;
               dml.SetClausAliases := [];
               dml.SetClauses := ["name"; "price"] |}
            [Byte.x3b])
       = Some e
       ∧ dml.kindOf e = dml.Empty.
Proof.
  apply (proj2 (proj2 (proj2 (proj2
           (writeBuildCache_then_validate tt
              {| dml.cachedSQL := []; dml.conditional := tt;
                 dml.SetClausAliases := [];
                 dml.SetClauses := ["name"; "price"] |}
              [Byte.x3b]))))).
  simpl. lia.
Defined.

(** X17.  On a builder without cached SQL, [validate] after [AddColumns] of
    at least one column passes exactly when there are no aliases or as many
    aliases as SET clauses, the new ones counted. *)
Theorem AddColumns_then_validate {Condition BuilderConditional : Type}
  (Column : string → Condition)
  (b : @dml.Update Condition BuilderConditional) (columnNames : list string) :
  (length (dml.cachedSQL b) ≤ 1)%nat →
  columnNames ≠ [] →
  dml.validate (dml.AddColumns Column b columnNames) = None
  ↔ dml.SetClausAliases b = []
    ∨ length (dml.SetClausAliases b)
      = (length (dml.SetClauses b) + length columnNames)%nat.
Proof.
  intros Hcache Hcols. rewrite AddColumns_SetClauses.
  unfold dml.validate. simpl. rewrite length_app, length_fmap.
  destruct (Nat.ltb_spec 1 (length (dml.cachedSQL b))); [lia |].
  assert (0 < length columnNames)%nat
    by (destruct columnNames; [done | simpl; lia]).
  destruct (Nat.eqb_spec (length (dml.SetClauses b) + length columnNames) 0);
    [lia |].
  destruct (Nat.ltb_spec 0 (length (dml.SetClausAliases b))) as [Hpos | Hzero];
    destruct (Nat.eqb_spec (length (dml.SetClausAliases b))
                (length (dml.SetClauses b) + length columnNames))
      as [Heq | Hne]; cbn [negb andb].
  - split; [by right | done].
  - split; [done |]. intros [Hnil | ?]; [|done].
    rewrite Hnil in Hpos. simpl in Hpos. lia.
  - split; [by right | done].
  - split; [|done]. intros _. left. apply length_zero_iff_nil. lia.
Qed.

Lemma AddColumns_then_validate_witness :
  dml.validate
    (dml.AddColumns (λ col, col)
       {| dml.cachedSQL := []; dml.conditional := tt;
          dml.SetClausAliases := ["n"; "p"]; dml.SetClauses := ["name"] |}
       ["price"])
  = None
  ↔ ["n"; "p"] = []
    ∨ length ["n"; "p"] = (length ["name"] + length ["price"])%nat.
Proof.
  apply (AddColumns_then_validate (λ col : string, col)
           {| dml.cachedSQL := []; dml.conditional := tt;
              dml.SetClausAliases := ["n"; "p"];
              dml.SetClauses := ["name"] |}
           ["price"]);
    [simpl; lia | discriminate].
Defined.

(** X18.  [Prepare] does not reach [prepare] with a builder that does not
    validate.  Without cached SQL longer than one byte, a builder with no
    SET clause fails with an error of the kind Empty, also when its aliases
    do not match; one with SET clauses and aliases of another number fails
    with an error of the kind Mismatch; in both cases no statement is
    returned.  Every other builder gets what [prepare] returns. *)
Theorem Prepare_validates_first {Condition BuilderConditional Stmt : Type}
  (prepare : @dml.Update Condition BuilderConditional
             → option Stmt * option dml.error)
  (b : @dml.Update Condition BuilderConditional) :
  ((length (dml.cachedSQL b) ≤ 1)%nat → dml.SetClauses b = [] →
   ∃ e, dml.Prepare prepare b = (None, Some e) ∧ dml.kindOf e = dml.Empty)
  ∧ ((length (dml.cachedSQL b) ≤ 1)%nat → dml.SetClauses b ≠ [] →
     dml.SetClausAliases b ≠ [] →
     length (dml.SetClausAliases b) ≠ length (dml.SetClauses b) →
     ∃ e, dml.Prepare prepare b = (None, Some e)
          ∧ dml.kindOf e = dml.Mismatch)
  ∧ ((1 < length (dml.cachedSQL b))%nat
     ∨ (dml.SetClauses b ≠ []
        ∧ (dml.SetClausAliases b = []
           ∨ length (dml.SetClausAliases b) = length (dml.SetClauses b))) →
     dml.Prepare prepare b = prepare b).
Proof.
  unfold dml.Prepare, dml.validate. split_and!.
  - intros Hc Hs. destruct (Nat.ltb_spec 1 (length (dml.cachedSQL b))); [lia |].
    rewrite Hs. simpl. by eexists.
  - intros Hc Hs Ha Hne.
    destruct (Nat.ltb_spec 1 (length (dml.cachedSQL b))); [lia |].
    destruct (Nat.eqb_spec (length (dml.SetClauses b)) 0) as [H0|_].
    { by apply length_zero_iff_nil in H0. }
    destruct (Nat.ltb_spec 0 (length (dml.SetClausAliases b))) as [_|H0].
    2:{ destruct (dml.SetClausAliases b); [done | simpl in H0; lia]. }
    destruct (Nat.eqb_spec (length (dml.SetClausAliases b))
                (length (dml.SetClauses b))); [done |].
    simpl. by eexists.
  - intros [Hc | (Hs & Ha)].
    + by destruct (Nat.ltb_spec 1 (length (dml.cachedSQL b))); [|lia].
    + destruct (Nat.ltb_spec 1 (length (dml.cachedSQL b))); [done |].
      destruct (Nat.eqb_spec (length (dml.SetClauses b)) 0) as [H0|_].
      { by apply length_zero_iff_nil in H0. }
      destruct Ha as [-> | ->]; simpl; [done |].
      rewrite Nat.eqb_refl. simpl. by rewrite andb_false_r.
Qed.

Lemma Prepare_validates_first_witness :
  ∃ e, dml.Prepare (Stmt := string) (λ _, (Some "stmt", None))
         {| dml.cachedSQL := []; dml.conditional := tt;
            dml.SetClausAliases := ["n"];
            dml.SetClauses := @nil string |}
       = (None, Some e)
       ∧ dml.kindOf e = dml.Empty.
Proof.
  apply (proj1 (Prepare_validates_first (Stmt := string)
                  (λ _, (Some "stmt", None))
                  {| dml.cachedSQL := []; dml.conditional := tt;
                     dml.SetClausAliases := ["n"];
                     dml.SetClauses := @nil string |}));
    [simpl; lia | reflexivity].
Defined.
